(** * Slinkity's Vite adapter (packages/slinkity/src/vite.cts)

    A shallow embedding of the five pieces of [vite.cts] and the proofs of
    their specified behaviour:

    - [DevServer]: [createViteServer(...).getOrInitialize], the lazily
      created dev server shared by every request;
    - [Build]: [productionBuild], the rename / bundle / remove protocol on
      the output directory;
    - [Props]: [slinkityPropsPlugin] and [getPropsModContents], the
      [slinkity:props:] virtual module;
    - [InjectHead]: [slinkityInjectHeadPlugin], the stylesheet links of a
      page;
    - [Merge]: [mergeRendererConfigs], the fold of the renderers' Vite
      configurations.

    JavaScript values are modelled as follows.  A [Map] from strings is a
    [gmap string _]; a [Set] of strings is the list of its elements in
    insertion order; an awaited promise that may reject is a [Result]; a
    value that may be [undefined] is an [option]. *)

From Stdlib Require Import Ascii String.
From stdpp Require Import gmap strings list fin_maps.

(** ** Results of calls that may throw *)

(** [Ok v] is a normal return (a fulfilled promise once awaited), [Err e] a
    thrown exception (a rejected promise) carrying the error [e]. *)
Inductive Result (E A : Type) : Type :=
| Ok (v : A)
| Err (e : E).
Arguments Ok {E A} v.
Arguments Err {E A} e.

(** Sequencing: a throw skips the rest, as an exception does.  With these
    instances stdpp's [x ← r; k] reads as [const x = await r; k]. *)
#[global] Instance Result_bind {E} : MBind (Result E) := λ A B k r,
  match r with
  | Ok v => k v
  | Err e => Err e
  end.
#[global] Instance Result_ret {E} : MRet (Result E) := λ A v, Ok v.

(** What a call can throw. *)
Inductive Error : Type :=
| JsError (message : string)      (* [new Error(message)] *)
| TypeError                       (* reading a property of [undefined] *)
| SystemError (code : string)     (* a failed [fs] call *)
| HostError (what : string).      (* raised by Vite or by a callback *)

#[global] Instance Error_eq_dec : EqDecision Error.
Proof. solve_decision. Defined.

(** ** Strings *)

(** A string is the sequence of bytes of its UTF-8 encoding. *)
Definition dquote : ascii := "034"%char.
Definition backslash : ascii := "092"%char.
Definition nl : string := String "010"%char EmptyString.
Definition nul : string := String "000"%char EmptyString.

(** [s.startsWith(pre)] *)
Definition startsWith (s pre : string) : bool := String.prefix pre s.

(** [s.replace(pre, "")] for an [s] that starts with [pre]: the first
    occurrence of [pre] is the one at index 0. *)
Definition stripPrefix (pre s : string) : string :=
  String.substring (String.length pre) (String.length s - String.length pre) s.

Definition hexDigit (n : nat) : ascii :=
  match n with
  | 0 => "0" | 1 => "1" | 2 => "2" | 3 => "3" | 4 => "4" | 5 => "5"
  | 6 => "6" | 7 => "7" | 8 => "8" | 9 => "9" | 10 => "a" | 11 => "b"
  | 12 => "c" | 13 => "d" | 14 => "e" | _ => "f"
  end%char.

(** ECMAScript's QuoteJSONString on one character: the two-character
    escapes, [\u00XX] for the other control characters, and the character
    itself otherwise. *)
Definition quoteJSONChar (c : ascii) : string :=
  let n := nat_of_ascii c in
  let esc (e : ascii) := String backslash (String e EmptyString) in
  if n =? 8 then esc "b"%char
  else if n =? 9 then esc "t"%char
  else if n =? 10 then esc "n"%char
  else if n =? 12 then esc "f"%char
  else if n =? 13 then esc "r"%char
  else if n =? 34 then esc dquote
  else if n =? 92 then esc backslash
  else if n <? 32 then
    String backslash (String "u" (String "0" (String "0"
      (String (hexDigit (n / 16)) (String (hexDigit (n mod 16)) EmptyString)))))
  else String c EmptyString.

Fixpoint quoteJSONChars (s : string) : string :=
  match s with
  | EmptyString => EmptyString
  | String c rest => quoteJSONChar c +:+ quoteJSONChars rest
  end.

(** [JSON.stringify(s)] for a string [s]. *)
Definition JSON_stringify (s : string) : string :=
  String dquote (quoteJSONChars s +:+ String dquote EmptyString).

(** [s.endsWith(suffix)] *)
Definition endsWith (s suffix : string) : bool :=
  (String.length suffix <=? String.length s)
  && String.eqb
       (String.substring (String.length s - String.length suffix)
          (String.length suffix) s)
       suffix.

(** JavaScript truthiness of a [string | undefined]: [undefined] and the
    empty string are falsy. *)
Definition truthy (v : option string) : bool :=
  match v with
  | Some s => negb (String.eqb s "")
  | None => false
  end.

(** ** Configuration objects *)

(** The JavaScript values a Vite configuration is made of.  [Opaque] stands
    for a value compared by reference only (a plugin object, a function).
    A plain object is the finite map of its own properties. *)
#[warnings="-register-all"]
Inductive Value : Type :=
| Undefined
| Bool (b : bool)
| Str (s : string)
| Opaque (name : string)
| Arr (items : list Value)
| Obj (fields : gmap string Value).

(** A [vite.InlineConfig]: the properties of a plain object. *)
Abbreviation Config := (gmap string Value).

(** A directory or file, named by the segments of its normalised absolute
    path.  [path.resolve] and [path.relative(".", _)] change the spelling of
    a path, not the directory it names. *)
Definition Path : Type := list string.

Definition path_string (p : Path) : string := String.concat "/" p.

(** * The dev-server coordinator *)

Module DevServer.

(** A [vite.ViteDevServer] object; two handles are the same object exactly
    when their identifiers agree.  Every such object is truthy. *)
Inductive ViteDevServer : Type := ServerRef (id : nat).

#[global] Instance ViteDevServer_eq_dec : EqDecision ViteDevServer.
Proof. solve_decision. Defined.

(** The state of a promise handed out by [getOrInitialize]. *)
Inductive PromiseState : Type :=
| Pending
| Fulfilled (server : ViteDevServer)
| Rejected.

#[global] Instance PromiseState_eq_dec : EqDecision PromiseState.
Proof. solve_decision. Defined.

(** The closure of [createViteServer] together with the part of the host
    it talks to.

    - [viteServer] and [awaitingServer] are the two [let] variables of the
      closure.  A [resolve] callback is represented by the index of the
      promise it settles.
    - [promises] holds the promises returned so far, in call order.
    - [createServerCalls] counts the calls of [vite.createServer];
      [inFlight] counts those whose promise has not settled yet. *)
Record World : Type := MkWorld {
  viteServer : option ViteDevServer;
  awaitingServer : list nat;
  promises : list PromiseState;
  createServerCalls : nat;
  inFlight : nat;
}.

Definition init : World :=
  {| viteServer := None; awaitingServer := []; promises := [];
     createServerCalls := 0; inFlight := 0 |}.

(** Calling the [resolve] function of promise [p]: only a pending promise
    changes state. *)
Definition resolve (s : ViteDevServer) (ps : list PromiseState) (p : nat)
  : list PromiseState :=
  match ps !! p with
  | Some Pending => <[p := Fulfilled s]> ps
  | _ => ps
  end.

(** [getOrInitialize()], lines 81-95.  Returns the index of the promise it
    hands to its caller.  The executor of [new Promise] runs synchronously,
    so the push on [awaitingServer] happens within the call. *)
Definition getOrInitialize (w : World) : nat * World :=
  let p := length (promises w) in
  match viteServer w with
  | Some s =>
      (p, {| viteServer := viteServer w;
             awaitingServer := awaitingServer w;
             promises := promises w ++ [Fulfilled s];
             createServerCalls := createServerCalls w;
             inFlight := inFlight w |})
  | None =>
      let started := bool_decide (length (awaitingServer w) = 0) in
      (p, {| viteServer := None;
             awaitingServer := awaitingServer w ++ [p];
             promises := promises w ++ [Pending];
             createServerCalls :=
               if started then S (createServerCalls w) else createServerCalls w;
             inFlight := if started then S (inFlight w) else inFlight w |})
  end.

(** The callback given to [.then], lines 85-90: store the server, then call
    every queued [resolve] with it, in queue order. *)
Definition onCreated (s : ViteDevServer) (w : World) : World :=
  {| viteServer := Some s;
     awaitingServer := awaitingServer w;
     promises := foldl (resolve s) (promises w) (awaitingServer w);
     createServerCalls := createServerCalls w;
     inFlight := inFlight w |}.

Definition settleOne (w : World) : World :=
  {| viteServer := viteServer w;
     awaitingServer := awaitingServer w;
     promises := promises w;
     createServerCalls := createServerCalls w;
     inFlight := pred (inFlight w) |}.

(** What can happen on the event loop: a caller invokes [getOrInitialize],
    or one of the outstanding [vite.createServer] promises settles.  A
    fulfilment runs the [.then] callback; a rejection runs nothing, since
    [.then] was given no rejection handler. *)
Inductive Event : Type :=
| Call
| CreationFulfils (s : ViteDevServer)
| CreationRejects.

#[global] Instance Event_eq_dec : EqDecision Event.
Proof. solve_decision. Defined.

(** A settlement is only possible while a creation is outstanding. *)
Definition step (w : World) (e : Event) : option World :=
  match e with
  | Call => Some (getOrInitialize w).2
  | CreationFulfils s =>
      if bool_decide (0 < inFlight w) then Some (onCreated s (settleOne w))
      else None
  | CreationRejects =>
      if bool_decide (0 < inFlight w) then Some (settleOne w) else None
  end.

Fixpoint run (w : World) (evs : list Event) : option World :=
  match evs with
  | [] => Some w
  | e :: evs' =>
      match step w e with
      | Some w' => run w' evs'
      | None => None
      end
  end.

(** The number of [getOrInitialize] calls of a schedule. *)
Definition calls (evs : list Event) : nat :=
  length (filter (λ e, e = Call) evs).

(** What holds of the world after any schedule [evs] started from [init]. *)
Definition Inv (evs : list Event) (w : World) : Prop :=
  length (promises w) = calls evs
  ∧ createServerCalls w = (if bool_decide (calls evs = 0) then 0 else 1)
  ∧ match viteServer w with
    | Some s =>
        promises w = replicate (calls evs) (Fulfilled s)
        ∧ inFlight w = 0
        ∧ 0 < calls evs
        ∧ ∀ s', CreationFulfils s' ∈ evs → s' = s
    | None =>
        promises w = replicate (calls evs) Pending
        ∧ awaitingServer w = seq 0 (calls evs)
        ∧ inFlight w ≤ createServerCalls w
        ∧ ∀ s', CreationFulfils s' ∉ evs
    end.

(** Once the creation has failed nothing can start another one: the queue
    is not empty and never shrinks, and no creation is outstanding. *)
Definition Stalled (w : World) : Prop :=
  viteServer w = None ∧ inFlight w = 0 ∧ awaitingServer w ≠ [].

(** The world while [n + 1] callers wait for the one creation. *)
Definition waiting (n : nat) : World :=
  {| viteServer := None; awaitingServer := seq 0 (S n);
     promises := replicate (S n) Pending;
     createServerCalls := 1; inFlight := 1 |}.

(** The number of settlements of [vite.createServer] promises in a
    schedule: each one is a run, or a skipped run, of the [.then] callback. *)
Definition settlements (evs : list Event) : nat :=
  length (filter (λ e, e ≠ Call) evs).

(** ** Proofs *)

Lemma run_app w evs1 evs2 :
  run w (evs1 ++ evs2) =
  match run w evs1 with Some w1 => run w1 evs2 | None => None end.
Proof.
  revert w. induction evs1 as [|e evs1 IH]; intros w; simpl; [done|].
  destruct (step w e); [apply IH | done].
Qed.

Lemma run_snoc w evs e :
  run w (evs ++ [e]) =
  match run w evs with Some w1 => step w1 e | None => None end.
Proof.
  rewrite run_app. destruct (run w evs) as [w1|]; [|done].
  simpl. by destruct (step w1 e).
Qed.

Lemma calls_snoc evs e :
  calls (evs ++ [e]) = calls evs + (if bool_decide (e = Call) then 1 else 0).
Proof.
  unfold calls. rewrite filter_app, length_app. f_equal.
  destruct e; reflexivity.
Qed.

(** Resolving the queue [k, k+1, ..., k+n-1] over promises of which the
    first [k] are fulfilled and the next [n] pending. *)
Lemma resolve_queue s k n :
  foldl (resolve s) (replicate k (Fulfilled s) ++ replicate n Pending) (seq k n)
  = replicate (k + n) (Fulfilled s).
Proof.
  revert k. induction n as [|n IH]; intros k; simpl.
  - by rewrite app_nil_r, Nat.add_0_r.
  - unfold resolve at 2.
    assert (Hk : length (replicate k (Fulfilled s)) = k) by apply length_replicate.
    rewrite lookup_app_r by lia. rewrite Hk, Nat.sub_diag. simpl.
    rewrite insert_app_r_alt by lia. rewrite Hk, Nat.sub_diag. simpl.
    replace (replicate k (Fulfilled s) ++ Fulfilled s :: replicate n Pending)
      with (replicate (S k) (Fulfilled s) ++ replicate n Pending).
    + rewrite IH. f_equal. lia.
    + rewrite replicate_S_end. by rewrite <- app_assoc.
Qed.

Lemma resolve_all_pending s n :
  foldl (resolve s) (replicate n Pending) (seq 0 n) = replicate n (Fulfilled s).
Proof. apply (resolve_queue s 0 n). Qed.

Lemma Inv_init : Inv [] init.
Proof.
  repeat split; simpl; try done. intros s' Hin. by apply elem_of_nil in Hin.
Qed.

Lemma Inv_step evs w e w' :
  Inv evs w → step w e = Some w' → Inv (evs ++ [e]) w'.
Proof.
  intros (Hlen & Hcalls & Hsrv) Hstep.
  destruct e as [|s|]; simpl in Hstep.
  - (* a call *)
    injection Hstep as <-. unfold Inv, getOrInitialize.
    rewrite calls_snoc. simpl.
    destruct (viteServer w) as [s|] eqn:Hs; simpl.
    + destruct Hsrv as (Hps & Hfl & Hpos & Hful).
      rewrite length_app, Hlen. simpl. split; [done|].
      split.
      { rewrite Hcalls. repeat case_bool_decide; lia. }
      repeat split; try done; try lia.
      * rewrite Hps, replicate_add. done.
      * intros s' Hin. apply elem_of_app in Hin as [Hin|Hin]; [by apply Hful|].
        apply list_elem_of_singleton in Hin. done.
    + destruct Hsrv as (Hps & Hq & Hfl & Hful).
      rewrite length_app, Hlen. simpl. split; [done|].
      rewrite Hq, length_seq.
      split.
      { rewrite Hcalls. repeat case_bool_decide; lia. }
      repeat split.
      * rewrite Hps, replicate_add. done.
      * rewrite seq_app. done.
      * rewrite Hcalls in *. repeat case_bool_decide; lia.
      * intros s' Hin. apply elem_of_app in Hin as [Hin|Hin]; [by apply (Hful s')|].
        apply list_elem_of_singleton in Hin. done.
  - (* the creation fulfils *)
    case_bool_decide as Hpos; [|done]. injection Hstep as <-.
    destruct (viteServer w) as [s0|] eqn:Hs.
    { destruct Hsrv as (_ & Hfl & _). lia. }
    destruct Hsrv as (Hps & Hq & Hfl & Hful).
    assert (Hc : calls evs ≠ 0).
    { intros Hz. rewrite Hcalls in Hfl. rewrite bool_decide_true in Hfl by done. lia. }
    unfold Inv, onCreated. simpl. rewrite calls_snoc. simpl. rewrite Nat.add_0_r.
    rewrite Hps, Hq, resolve_all_pending, length_replicate.
    repeat split; try done.
    + rewrite Hcalls in Hfl. rewrite bool_decide_false in Hfl by done. lia.
    + lia.
    + intros s' Hin. apply elem_of_app in Hin as [Hin|Hin]; [by destruct (Hful s')|].
      apply list_elem_of_singleton in Hin. by injection Hin.
  - (* the creation rejects *)
    case_bool_decide as Hpos; [|done]. injection Hstep as <-.
    destruct (viteServer w) as [s0|] eqn:Hs.
    { destruct Hsrv as (_ & Hfl & _). lia. }
    destruct Hsrv as (Hps & Hq & Hfl & Hful).
    unfold Inv, settleOne. simpl. rewrite Hs, calls_snoc. simpl.
    rewrite Nat.add_0_r. repeat split; try done; try lia.
    intros s' Hin. apply elem_of_app in Hin as [Hin|Hin]; [by apply (Hful s')|].
    apply list_elem_of_singleton in Hin. done.
Qed.

Lemma Inv_run evs w : run init evs = Some w → Inv evs w.
Proof.
  revert w. induction evs as [|e evs IH] using rev_ind; intros w Hrun.
  - injection Hrun as <-. apply Inv_init.
  - rewrite run_snoc in Hrun. destruct (run init evs) as [w1|]; [|done].
    eapply Inv_step; [by apply IH | done].
Qed.

Lemma Stalled_run w evs w' : Stalled w → run w evs = Some w' → Stalled w'.
Proof.
  revert w. induction evs as [|e evs IH]; intros w Hst Hrun; simpl in Hrun.
  - by injection Hrun as <-.
  - destruct Hst as (Hs & Hfl & Hq).
    destruct e as [|s|]; simpl in Hrun.
    + apply IH in Hrun; [done|]. unfold getOrInitialize. rewrite Hs. simpl.
      repeat split; [|by destruct (awaitingServer w)].
      rewrite bool_decide_false; [done|]. by destruct (awaitingServer w).
    + rewrite bool_decide_false in Hrun by lia. done.
    + rewrite bool_decide_false in Hrun by lia. done.
Qed.

Lemma run_calls_waiting (n : nat) :
  run init (replicate (S n) Call) = Some (waiting n).
Proof.
  induction n as [|n IH]; [reflexivity|].
  rewrite replicate_S_end, run_snoc, IH. unfold waiting, step, getOrInitialize.
  cbn [viteServer awaitingServer promises createServerCalls inFlight snd].
  rewrite length_seq, length_replicate, bool_decide_false by lia.
  rewrite <- replicate_S_end, (seq_S (S n) 0). reflexivity.
Qed.

Lemma run_calls_always (w : World) (m : nat) :
  is_Some (run w (replicate m Call)).
Proof. revert w. induction m as [|m IH]; intros w; simpl; [by eexists|apply IH]. Qed.

(** Every schedule of the shape the coordinator is used in can happen:
    [n + 1] calls, the fulfilment of the creation, and [m] later calls. *)
Lemma canonical_schedule_runs (n m : nat) (s : ViteDevServer) :
  is_Some (run init (replicate (S n) Call ++ CreationFulfils s
                       :: replicate m Call)).
Proof.
  rewrite run_app, run_calls_waiting.
  change (is_Some (run (onCreated s (settleOne (waiting n))) (replicate m Call))).
  apply run_calls_always.
Qed.

(** C1. Single flight: after any schedule of calls and settlements,
    [vite.createServer] has been called exactly once (by the first call of
    [getOrInitialize]; never before it), every call has received a promise,
    and as soon as the creation has completed with a server [s], the promise
    of every call, made before or after the completion, is fulfilled with
    that same [s]. *)
Theorem getOrInitialize_single_flight (evs : list Event) (w : World) :
  run init evs = Some w →
  createServerCalls w = (if bool_decide (calls evs = 0) then 0 else 1)
  ∧ length (promises w) = calls evs
  ∧ ∀ s, CreationFulfils s ∈ evs →
      0 < calls evs ∧ promises w = replicate (calls evs) (Fulfilled s).
Proof.
  intros Hrun. destruct (Inv_run _ _ Hrun) as (Hlen & Hcalls & Hsrv).
  repeat split; try done;
    destruct (viteServer w) as [s0|];
    try (destruct Hsrv as (_ & _ & _ & Hno); by destruct (Hno s));
    destruct Hsrv as (Hps & _ & Hpos & Hful); try done.
  by rewrite (Hful s).
Qed.

Lemma getOrInitialize_single_flight_witness :
  ∃ w, run init [Call; Call; CreationFulfils (ServerRef 7); Call] = Some w
       ∧ createServerCalls w = 1
       ∧ promises w = replicate 3 (Fulfilled (ServerRef 7)).
Proof.
  eexists. split; [reflexivity|].
  destruct (getOrInitialize_single_flight
              [Call; Call; CreationFulfils (ServerRef 7); Call] _ eq_refl)
    as (Hone & _ & Hsame).
  split; [exact Hone|].
  apply (Hsame (ServerRef 7)). apply list_elem_of_In. simpl. tauto.
Defined.

(** C4. If the creation fails, every promise whose [resolve] was queued
    before the failure is still pending after any continuation of the
    schedule: it is neither fulfilled nor rejected, whatever happens later. *)
Theorem creation_failure_stalls (evs1 evs2 : list Event) (w1 w : World) :
  run init evs1 = Some w1 →
  run init (evs1 ++ CreationRejects :: evs2) = Some w →
  ∀ p, p ∈ awaitingServer w1 → promises w !! p = Some Pending.
Proof.
  intros Hrun1 Hrun p Hp.
  pose proof (Inv_run _ _ Hrun1) as (Hlen1 & Hcalls1 & Hsrv1).
  pose proof (Inv_run _ _ Hrun) as (Hlen & Hcalls & Hsrv).
  rewrite run_app, Hrun1 in Hrun. simpl in Hrun.
  destruct (decide (0 < inFlight w1)) as [Hpos|Hpos];
    [rewrite bool_decide_true in Hrun by done
    |rewrite bool_decide_false in Hrun by done; done].
  destruct (viteServer w1) as [s1|] eqn:Hs1.
  { destruct Hsrv1 as (_ & Hfl & _). lia. }
  destruct Hsrv1 as (_ & Hq1 & Hfl1 & _).
  assert (Hc1 : calls evs1 ≠ 0).
  { intros Hz. rewrite Hcalls1, bool_decide_true in Hfl1 by done. lia. }
  assert (Hst : Stalled (settleOne w1)).
  { repeat split; simpl; [done| |].
    - rewrite Hcalls1, bool_decide_false in Hfl1 by done. lia.
    - rewrite Hq1. destruct (calls evs1) eqn:Hn; [lia|done]. }
  destruct (Stalled_run _ _ _ Hst Hrun) as (Hs & _ & _).
  rewrite Hs in Hsrv. destruct Hsrv as (Hps & _).
  rewrite Hps. apply lookup_replicate_2.
  rewrite Hq1 in Hp. apply elem_of_seq in Hp.
  unfold calls. rewrite filter_app, length_app. unfold calls in Hp. lia.
Qed.

Lemma creation_failure_stalls_witness :
  ∃ w, run init [Call; Call; CreationRejects; Call] = Some w
       ∧ promises w !! 0 = Some Pending
       ∧ promises w !! 1 = Some Pending.
Proof.
  eexists. split; [reflexivity|].
  pose proof (creation_failure_stalls [Call; Call] [Call] _ _ eq_refl eq_refl)
    as Hstall.
  split; apply Hstall; apply list_elem_of_In; simpl; tauto.
Defined.

(** ** Further properties of the coordinator *)

Lemma calls_app evs1 evs2 : calls (evs1 ++ evs2) = calls evs1 + calls evs2.
Proof. unfold calls. by rewrite filter_app, length_app. Qed.

Lemma calls_skip_settlement evs1 e evs2 :
  e ≠ Call → calls (evs1 ++ e :: evs2) = calls (evs1 ++ evs2).
Proof.
  intros He. rewrite !calls_app. f_equal. unfold calls.
  rewrite filter_cons_False by done. done.
Qed.

Lemma settlements_snoc evs e :
  settlements (evs ++ [e])
  = settlements evs + (if bool_decide (e = Call) then 0 else 1).
Proof.
  unfold settlements. rewrite filter_app, length_app. f_equal.
  destruct e; reflexivity.
Qed.

(** The server variable is only ever set by a fulfilment of the schedule. *)
Lemma server_from_fulfilment evs w s :
  run init evs = Some w → viteServer w = Some s → CreationFulfils s ∈ evs.
Proof.
  revert w. induction evs as [|e evs IH] using rev_ind; intros w Hrun Hs.
  - injection Hrun as <-. done.
  - rewrite run_snoc in Hrun. destruct (run init evs) as [w1|]; [|done].
    apply elem_of_app. destruct e as [|s'|]; simpl in Hrun.
    + injection Hrun as <-. left. apply (IH w1); [done|].
      unfold getOrInitialize in Hs. by destruct (viteServer w1).
    + case_bool_decide; [|done]. injection Hrun as <-. simpl in Hs.
      injection Hs as ->. right. by apply list_elem_of_singleton.
    + case_bool_decide; [|done]. injection Hrun as <-. left. by apply (IH w1).
Qed.

(** Every [vite.createServer] call is either outstanding or settled. *)
Lemma settlements_inFlight evs w :
  run init evs = Some w → settlements evs + inFlight w = createServerCalls w.
Proof.
  revert w. induction evs as [|e evs IH] using rev_ind; intros w Hrun.
  - by injection Hrun as <-.
  - rewrite run_snoc in Hrun. destruct (run init evs) as [w1|]; [|done].
    specialize (IH w1 eq_refl). rewrite settlements_snoc.
    destruct e as [|s'|]; simpl in Hrun.
    + injection Hrun as <-. unfold getOrInitialize. simpl.
      destruct (viteServer w1); simpl; [lia|]. case_bool_decide; lia.
    + case_bool_decide; [|done]. injection Hrun as <-. simpl. lia.
    + case_bool_decide; [|done]. injection Hrun as <-. simpl. lia.
Qed.

(** Once the server exists, calls leave the queue and the server alone. *)
Lemma run_after_completion w evs w' s :
  viteServer w = Some s → inFlight w = 0 → run w evs = Some w' →
  viteServer w' = Some s ∧ inFlight w' = 0
  ∧ awaitingServer w' = awaitingServer w
  ∧ createServerCalls w' = createServerCalls w.
Proof.
  revert w. induction evs as [|e evs IH]; intros w Hs Hfl Hrun; simpl in Hrun.
  - by injection Hrun as <-.
  - destruct e as [|s'|]; simpl in Hrun.
    + apply IH in Hrun; unfold getOrInitialize in *; rewrite Hs in *; done.
    + rewrite bool_decide_false in Hrun by lia. done.
    + rewrite bool_decide_false in Hrun by lia. done.
Qed.

(** No retry after a failure: once the creation has been rejected, the
    server variable stays unset, no creation is outstanding,
    [vite.createServer] is never called a second time, and the promise of
    every call, made before or after the failure, is pending. *)
Theorem no_retry_after_failure (evs1 evs2 : list Event) (w : World) :
  run init (evs1 ++ CreationRejects :: evs2) = Some w →
  viteServer w = None
  ∧ inFlight w = 0
  ∧ createServerCalls w = 1
  ∧ promises w = replicate (calls (evs1 ++ evs2)) Pending.
Proof.
  intros Hrun.
  pose proof (Inv_run _ _ Hrun) as (_ & Hcalls & Hsrv).
  rewrite run_app in Hrun.
  destruct (run init evs1) as [w1|] eqn:Hrun1; [|done].
  pose proof (Inv_run _ _ Hrun1) as (_ & Hcalls1 & Hsrv1).
  simpl in Hrun.
  destruct (decide (0 < inFlight w1)) as [Hpos|Hpos];
    [rewrite bool_decide_true in Hrun by done
    |rewrite bool_decide_false in Hrun by done; done].
  destruct (viteServer w1) as [s1|] eqn:Hs1.
  { destruct Hsrv1 as (_ & Hfl & _). lia. }
  destruct Hsrv1 as (_ & Hq1 & Hfl1 & _).
  assert (Hc1 : calls evs1 ≠ 0).
  { intros Hz. rewrite Hcalls1, bool_decide_true in Hfl1 by done. lia. }
  assert (Hst : Stalled (settleOne w1)).
  { repeat split; simpl; [done| |].
    - rewrite Hcalls1, bool_decide_false in Hfl1 by done. lia.
    - rewrite Hq1. destruct (calls evs1) eqn:Hn; [lia|done]. }
  destruct (Stalled_run _ _ _ Hst Hrun) as (Hs & Hfl & _).
  rewrite Hs in Hsrv. destruct Hsrv as (Hps & _).
  rewrite calls_skip_settlement in Hps, Hcalls by done.
  repeat split; try done.
  rewrite Hcalls, bool_decide_false; [done|]. rewrite calls_app. lia.
Qed.

Lemma no_retry_after_failure_witness :
  ∃ w, run init [Call; CreationRejects; Call; Call] = Some w
       ∧ createServerCalls w = 1
       ∧ promises w = [Pending; Pending; Pending].
Proof.
  eexists. split; [reflexivity|].
  destruct (no_retry_after_failure [Call] [Call; Call] _ eq_refl)
    as (_ & _ & Hone & Hps).
  split; [exact Hone | exact Hps].
Defined.

(** No early answer: while the schedule holds no fulfilment of the
    creation, the server variable is unset and every promise handed out is
    pending. *)
Theorem pending_until_completion (evs : list Event) (w : World) :
  run init evs = Some w →
  (∀ s, CreationFulfils s ∉ evs) →
  viteServer w = None ∧ promises w = replicate (calls evs) Pending.
Proof.
  intros Hrun Hno.
  pose proof (Inv_run _ _ Hrun) as (_ & _ & Hsrv).
  destruct (viteServer w) as [s|] eqn:Hs.
  - destruct (Hno s). by apply (server_from_fulfilment evs w).
  - by destruct Hsrv as (Hps & _).
Qed.

Lemma pending_until_completion_witness :
  ∃ w, run init [Call; Call; Call] = Some w
       ∧ promises w = [Pending; Pending; Pending].
Proof.
  eexists. split; [reflexivity|].
  refine (proj2 (pending_until_completion [Call; Call; Call] _ eq_refl _)).
  intros s Hin. apply list_elem_of_In in Hin. simpl in Hin.
  destruct Hin as [H|[H|[H|[]]]]; discriminate H.
Defined.

(** The [.then] callback gets at most one chance to run: a schedule holds
    at most one settlement of a [vite.createServer] promise, and the calls
    of [vite.createServer] are exactly the settled and the outstanding
    ones. *)
Theorem settles_at_most_once (evs : list Event) (w : World) :
  run init evs = Some w →
  settlements evs ≤ 1
  ∧ settlements evs + inFlight w = createServerCalls w.
Proof.
  intros Hrun. pose proof (settlements_inFlight _ _ Hrun) as Hsum.
  pose proof (Inv_run _ _ Hrun) as (_ & Hcalls & _).
  split; [|done]. rewrite Hcalls in Hsum. case_bool_decide; lia.
Qed.

Lemma settles_at_most_once_witness :
  settlements [Call; Call; CreationFulfils (ServerRef 1); Call] ≤ 1
  ∧ run init [Call; CreationFulfils (ServerRef 1); CreationRejects] = None.
Proof.
  split; [|reflexivity].
  exact (proj1 (settles_at_most_once
                  [Call; Call; CreationFulfils (ServerRef 1); Call] _ eq_refl)).
Defined.

(** The queue after completion: it holds the resolvers of exactly the
    calls made before the completion, in call order.  It is never cleared,
    and a call made after the completion adds nothing to it. *)
Theorem queue_after_completion (evs1 evs2 : list Event) (s : ViteDevServer)
    (w : World) :
  run init (evs1 ++ CreationFulfils s :: evs2) = Some w →
  awaitingServer w = seq 0 (calls evs1)
  ∧ viteServer w = Some s
  ∧ length (promises w) = calls evs1 + calls evs2.
Proof.
  intros Hrun.
  pose proof (Inv_run _ _ Hrun) as (Hlen & _ & _).
  rewrite calls_skip_settlement, calls_app in Hlen by done.
  rewrite run_app in Hrun.
  destruct (run init evs1) as [w1|] eqn:Hrun1; [|done].
  pose proof (Inv_run _ _ Hrun1) as (_ & Hcalls1 & Hsrv1).
  simpl in Hrun.
  destruct (decide (0 < inFlight w1)) as [Hpos|Hpos];
    [rewrite bool_decide_true in Hrun by done
    |rewrite bool_decide_false in Hrun by done; done].
  destruct (viteServer w1) as [s1|] eqn:Hs1.
  { destruct Hsrv1 as (_ & Hfl & _). lia. }
  destruct Hsrv1 as (_ & Hq1 & Hfl1 & _).
  assert (Hone : inFlight w1 = 1).
  { rewrite Hcalls1 in Hfl1. case_bool_decide; lia. }
  destruct (run_after_completion (onCreated s (settleOne w1)) evs2 w s)
    as (Hs & _ & Hq & _); [done | simpl; lia | done |].
  rewrite Hq. simpl. done.
Qed.

Lemma queue_after_completion_witness :
  ∃ w, run init [Call; Call; CreationFulfils (ServerRef 3); Call; Call] = Some w
       ∧ awaitingServer w = [0; 1].
Proof.
  eexists. split; [reflexivity|].
  exact (proj1 (queue_after_completion [Call; Call] [Call; Call] (ServerRef 3)
                  _ eq_refl)).
Defined.

End DevServer.

(** * Merging the renderers' configurations *)

Module Merge.

(** A renderer, as far as this file reads it: its optional [viteConfig]. *)
Record Renderer : Type := MkRenderer {
  viteConfig : option Config;
}.

(** The user's Slinkity configuration: [renderers] may be missing. *)
Record UserConfig : Type := MkUserConfig {
  renderers : option (list Renderer);
  buildTempDir : Path;
}.

(** A model of the host's [vite.mergeConfig] as its documentation describes
    it: an [undefined] override is skipped, a key that is missing or
    [undefined] is set, arrays concatenate (a lone value counting as a
    one-element array), two plain objects merge key by key, and any other
    value replaces the existing one.  Vite's special cases for the keys
    [alias], [assetsInclude] and [noExternal] are left out.  The proofs
    below do not depend on this model: they take [vite.mergeConfig] as a
    variable, and this function shows that what they assume about it can
    be met. *)
Fixpoint mergeValue (existing value : Value) {struct existing} : Value :=
  match existing, value with
  | Arr xs, Arr ys => Arr (xs ++ ys)
  | Arr xs, _ => Arr (xs ++ [value])
  | _, Arr ys => Arr (existing :: ys)
  | Obj defaults, Obj overrides =>
      Obj (merge (λ e v,
             match e, v with
             | _, None | _, Some Undefined => e
             | None, Some _ | Some Undefined, Some _ => v
             | Some e', Some v' => Some (mergeValue e' v')
             end) defaults overrides)
  | _, _ => value
  end.

Definition viteMergeConfig (defaults overrides : Config) : Config :=
  match mergeValue (Obj defaults) (Obj overrides) with
  | Obj merged => merged
  | _ => defaults
  end.

Section Fold.

(** [vite.mergeConfig], a function of the host bundler. *)
Variable mergeConfig : Config → Config → Config.

(** The [for ... of] loop of lines 191-193, on the list of renderers. *)
Fixpoint mergeLoop (viteConfig0 : Config) (rs : list Renderer) : Config :=
  match rs with
  | [] => viteConfig0
  | renderer :: rest =>
      mergeLoop (mergeConfig viteConfig0 (default ∅ (viteConfig renderer))) rest
  end.

(** [mergeRendererConfigs({ viteConfig, userConfig })], lines 184-195;
    [userConfig?.renderers ?? []] is the empty list when either is missing. *)
Definition mergeRendererConfigs (viteConfig0 : Config)
    (userConfig : option UserConfig) : Config :=
  mergeLoop viteConfig0 (default [] (userConfig ≫= renderers)).

(** The configuration [createViteServer] builds before it returns the
    coordinator, lines 67-76; the plugins are named by their [name]. *)
Definition createViteServerConfig (userConfig : option UserConfig) : Config :=
  let viteConfig0 : Config :=
    {[ "clearScreen" := Bool false;
       "appType" := Str "custom";
       "server" := Obj {[ "middlewareMode" := Bool true ]};
       "plugins" := Arr [Opaque "slinkity-props-plugin";
                         Opaque "vite-plugin-slinkity-inject-head"] ]} in
  mergeRendererConfigs viteConfig0 userConfig.

(** The array a fragment holds under a key; nothing when it has none. *)
Definition arrayAt (key : string) (fragment : Config) : list Value :=
  match fragment !! key with
  | Some (Arr ys) => ys
  | _ => []
  end.

(** The fragments the renderers supply, in registration order. *)
Definition fragments (rs : list Renderer) : list Config := omap viteConfig rs.

(** ** Proofs *)

(** What is assumed of [vite.mergeConfig]: merging the empty object changes
    nothing, and arrays under the same key concatenate. *)
Hypothesis merge_empty : ∀ c : Config, mergeConfig c ∅ = c.
Hypothesis merge_arrays : ∀ (key : string) (a b : Config) xs ys,
  a !! key = Some (Arr xs) → b !! key = Some (Arr ys) →
  mergeConfig a b !! key = Some (Arr (xs ++ ys)).

Lemma mergeLoop_fragments (c : Config) (rs : list Renderer) :
  mergeLoop c rs = foldl mergeConfig c (fragments rs).
Proof.
  revert c. induction rs as [|[[f|]] rs IH]; intros c; simpl.
  - done.
  - apply IH.
  - rewrite merge_empty. apply IH.
Qed.

Lemma foldl_merge_arrays (key : string) (frs : list Config) :
  ∀ (c : Config) xs yss,
    c !! key = Some (Arr xs) →
    Forall2 (λ (f : Config) ys, f !! key = Some (Arr ys)) frs yss →
    foldl mergeConfig c frs !! key = Some (Arr (xs ++ concat yss)).
Proof.
  induction frs as [|f frs IH]; intros c xs yss Hc Hall.
  - apply Forall2_nil_inv_l in Hall as ->. simpl. by rewrite app_nil_r.
  - apply Forall2_cons_inv_l in Hall as (ys & yss' & Hf & Hall & ->).
    simpl. rewrite app_assoc. apply IH; [|done]. by apply merge_arrays.
Qed.

(** C9. The merge is a left fold of [vite.mergeConfig] over the renderers'
    fragments in registration order, starting from the base
    configuration; a renderer without a fragment contributes nothing; and
    where the base and every fragment hold an array under a key, the result
    holds their concatenation in that order. *)
Theorem mergeRendererConfigs_fold (viteConfig0 : Config)
    (userConfig : option UserConfig) :
  let rs := default [] (userConfig ≫= renderers) in
  mergeRendererConfigs viteConfig0 userConfig
    = foldl mergeConfig viteConfig0 (fragments rs)
  ∧ ∀ (key : string) xs yss,
      viteConfig0 !! key = Some (Arr xs) →
      Forall2 (λ (f : Config) ys, f !! key = Some (Arr ys)) (fragments rs) yss →
      mergeRendererConfigs viteConfig0 userConfig !! key
        = Some (Arr (xs ++ concat yss)).
Proof.
  intros rs. unfold mergeRendererConfigs. fold rs.
  rewrite mergeLoop_fragments. split; [done|].
  intros key xs yss Hbase Hfrs. by apply foldl_merge_arrays.
Qed.

(** ** Further properties of the merge *)

(** Merging composes: the renderers may be merged in two batches, the
    second onto the result of the first.  This holds for any
    [vite.mergeConfig]. *)
Theorem mergeRendererConfigs_app (viteConfig0 : Config)
    (rs1 rs2 : list Renderer) (tmp tmp1 tmp2 : Path) :
  mergeRendererConfigs viteConfig0 (Some (MkUserConfig (Some (rs1 ++ rs2)) tmp))
  = mergeRendererConfigs
      (mergeRendererConfigs viteConfig0 (Some (MkUserConfig (Some rs1) tmp1)))
      (Some (MkUserConfig (Some rs2) tmp2)).
Proof.
  unfold mergeRendererConfigs. simpl. revert viteConfig0.
  induction rs1 as [|r rs1 IH]; intros c; simpl; [done|apply IH].
Qed.

(** Nothing to merge: with no user configuration, no [renderers], or only
    renderers without a [viteConfig], the result is the base
    configuration. *)
Theorem mergeRendererConfigs_nothing (viteConfig0 : Config)
    (userConfig : option UserConfig) :
  Forall (λ r, viteConfig r = None) (default [] (userConfig ≫= renderers)) →
  mergeRendererConfigs viteConfig0 userConfig = viteConfig0.
Proof.
  unfold mergeRendererConfigs. intros Hnone.
  induction Hnone as [|r rs Hr _ IH]; simpl; [done|].
  by rewrite Hr, merge_empty.
Qed.

(** A further assumption on [vite.mergeConfig]: a key the override does
    not have keeps the value of the defaults. *)
Hypothesis merge_keeps : ∀ (key : string) (a b : Config),
  b !! key = None → mergeConfig a b !! key = a !! key.

Lemma foldl_merge_keeps (key : string) (frs : list Config) :
  Forall (λ f : Config, f !! key = None) frs →
  ∀ c : Config, foldl mergeConfig c frs !! key = c !! key.
Proof.
  induction 1 as [|f frs Hf _ IH]; intros c; simpl; [done|].
  rewrite IH. by apply merge_keeps.
Qed.

(** Untouched keys: a key that no fragment sets has, in the result, the
    value it has in the base configuration. *)
Theorem mergeRendererConfigs_keeps (viteConfig0 : Config)
    (userConfig : option UserConfig) (key : string) :
  Forall (λ f : Config, f !! key = None)
    (fragments (default [] (userConfig ≫= renderers))) →
  mergeRendererConfigs viteConfig0 userConfig !! key = viteConfig0 !! key.
Proof.
  intros Hnone. unfold mergeRendererConfigs.
  rewrite mergeLoop_fragments. by apply foldl_merge_keeps.
Qed.

Lemma foldl_merge_arrays_gaps (key : string) (frs : list Config) :
  Forall (λ f : Config, f !! key = None ∨ ∃ ys, f !! key = Some (Arr ys)) frs →
  ∀ (c : Config) xs,
    c !! key = Some (Arr xs) →
    foldl mergeConfig c frs !! key
    = Some (Arr (xs ++ concat (arrayAt key <$> frs))).
Proof.
  induction 1 as [|f frs Hf _ IH]; intros c xs Hbase; simpl.
  - by rewrite app_nil_r.
  - unfold arrayAt at 1. destruct Hf as [Hf|[ys Hf]]; rewrite Hf.
    + simpl. apply IH. by rewrite merge_keeps.
    + rewrite app_assoc. apply IH. by apply merge_arrays.
Qed.

(** Arrays with gaps: when the base holds an array under a key and every
    fragment either holds an array there or does not have the key, the
    result holds the base array followed by the fragments' arrays in
    registration order. *)
Theorem mergeRendererConfigs_arrays (viteConfig0 : Config)
    (userConfig : option UserConfig) (key : string) (xs : list Value) :
  viteConfig0 !! key = Some (Arr xs) →
  Forall (λ f : Config, f !! key = None ∨ ∃ ys, f !! key = Some (Arr ys))
    (fragments (default [] (userConfig ≫= renderers))) →
  mergeRendererConfigs viteConfig0 userConfig !! key
  = Some (Arr (xs ++ concat (arrayAt key
                 <$> fragments (default [] (userConfig ≫= renderers))))).
Proof.
  intros Hbase Hfrs. unfold mergeRendererConfigs.
  rewrite mergeLoop_fragments. by apply foldl_merge_arrays_gaps.
Qed.

(** The dev server's plugins: the props plugin and the head injector come
    first, in that order, followed by the plugins of the renderers in
    registration order. *)
Theorem createViteServerConfig_plugins (userConfig : option UserConfig) :
  Forall (λ f : Config, f !! "plugins" = None
                        ∨ ∃ ys, f !! "plugins" = Some (Arr ys))
    (fragments (default [] (userConfig ≫= renderers))) →
  createViteServerConfig userConfig !! "plugins"
  = Some (Arr (Opaque "slinkity-props-plugin"
               :: Opaque "vite-plugin-slinkity-inject-head"
               :: concat (arrayAt "plugins"
                    <$> fragments (default [] (userConfig ≫= renderers))))).
Proof.
  intros Hfrs. unfold createViteServerConfig, mergeRendererConfigs.
  rewrite mergeLoop_fragments.
  rewrite (foldl_merge_arrays_gaps "plugins" _ Hfrs _
             [Opaque "slinkity-props-plugin";
              Opaque "vite-plugin-slinkity-inject-head"]); [done|].
  vm_compute. reflexivity.
Qed.

End Fold.

Lemma viteMergeConfig_empty (c : Config) : viteMergeConfig c ∅ = c.
Proof.
  unfold viteMergeConfig. simpl. apply map_eq. intros i.
  rewrite lookup_merge, lookup_empty. by destruct (c !! i) as [[]|].
Qed.

Lemma viteMergeConfig_arrays (key : string) (a b : Config) xs ys :
  a !! key = Some (Arr xs) → b !! key = Some (Arr ys) →
  viteMergeConfig a b !! key = Some (Arr (xs ++ ys)).
Proof.
  intros Ha Hb. unfold viteMergeConfig. simpl.
  rewrite lookup_merge, Ha, Hb. reflexivity.
Qed.

(** Base plugins [P], a renderer with plugins [Q], a renderer with no
    [viteConfig], and a renderer with plugins [R]: the merged plugins are
    [P, Q, R]. *)
Lemma mergeRendererConfigs_fold_witness :
  mergeRendererConfigs viteMergeConfig
      {[ "plugins" := Arr [Opaque "P"] ]}
      (Some (MkUserConfig
               (Some [MkRenderer (Some {[ "plugins" := Arr [Opaque "Q"] ]});
                      MkRenderer None;
                      MkRenderer (Some {[ "plugins" := Arr [Opaque "R"] ]})])
               ["tmp"]))
    !! "plugins"
  = Some (Arr [Opaque "P"; Opaque "Q"; Opaque "R"]).
Proof.
  apply (proj2 (mergeRendererConfigs_fold viteMergeConfig
                  viteMergeConfig_empty viteMergeConfig_arrays _ _)
           "plugins" [Opaque "P"] [[Opaque "Q"]; [Opaque "R"]]).
  - reflexivity.
  - repeat constructor.
Defined.


Lemma viteMergeConfig_keeps (key : string) (a b : Config) :
  b !! key = None → viteMergeConfig a b !! key = a !! key.
Proof.
  intros Hb. unfold viteMergeConfig. simpl. rewrite lookup_merge, Hb.
  by destruct (a !! key) as [[]|].
Qed.

Lemma mergeRendererConfigs_nothing_witness :
  mergeRendererConfigs viteMergeConfig {[ "mode" := Str "production" ]}
    (Some (MkUserConfig (Some [MkRenderer None; MkRenderer None]) ["tmp"]))
  = {[ "mode" := Str "production" ]}.
Proof.
  apply (mergeRendererConfigs_nothing viteMergeConfig viteMergeConfig_empty).
  repeat constructor.
Defined.

Lemma mergeRendererConfigs_keeps_witness :
  mergeRendererConfigs viteMergeConfig
    {[ "root" := Str "site/.tmp"; "plugins" := Arr [Opaque "P"] ]}
    (Some (MkUserConfig
             (Some [MkRenderer (Some {[ "plugins" := Arr [Opaque "Q"] ]})])
             ["tmp"]))
    !! "root"
  = Some (Str "site/.tmp").
Proof.
  rewrite (mergeRendererConfigs_keeps viteMergeConfig viteMergeConfig_empty
             viteMergeConfig_keeps).
  - vm_compute. reflexivity.
  - simpl. constructor; [vm_compute; reflexivity|]. constructor.
Defined.

Lemma mergeRendererConfigs_arrays_witness :
  mergeRendererConfigs viteMergeConfig
    {[ "plugins" := Arr [Opaque "P"] ]}
    (Some (MkUserConfig
             (Some [MkRenderer (Some {[ "plugins" := Arr [Opaque "Q"] ]});
                    MkRenderer (Some {[ "mode" := Str "development" ]});
                    MkRenderer (Some {[ "plugins" := Arr [Opaque "R"] ]})])
             ["tmp"]))
    !! "plugins"
  = Some (Arr [Opaque "P"; Opaque "Q"; Opaque "R"]).
Proof.
  rewrite (mergeRendererConfigs_arrays viteMergeConfig viteMergeConfig_empty
             viteMergeConfig_arrays viteMergeConfig_keeps _ _ "plugins"
             [Opaque "P"]).
  - vm_compute. reflexivity.
  - vm_compute. reflexivity.
  - simpl. constructor; [right; eexists; vm_compute; reflexivity|].
    constructor; [left; vm_compute; reflexivity|].
    constructor; [right; eexists; vm_compute; reflexivity|].
    constructor.
Defined.

Lemma createViteServerConfig_plugins_witness :
  createViteServerConfig viteMergeConfig
    (Some (MkUserConfig
             (Some [MkRenderer (Some {[ "plugins" := Arr [Opaque "react"] ]});
                    MkRenderer None])
             ["tmp"]))
    !! "plugins"
  = Some (Arr [Opaque "slinkity-props-plugin";
               Opaque "vite-plugin-slinkity-inject-head"; Opaque "react"]).
Proof.
  rewrite (createViteServerConfig_plugins viteMergeConfig viteMergeConfig_empty
             viteMergeConfig_arrays viteMergeConfig_keeps).
  - vm_compute. reflexivity.
  - simpl. constructor; [right; eexists; vm_compute; reflexivity|].
    constructor.
Defined.

End Merge.

(** * The stylesheet links of a page *)

Module InjectHead.

(** Vite's [IndexHtmlTransformContext], as far as the hook reads it. *)
Record IndexHtmlTransformContext : Type := MkContext {
  path : string;
  originalUrl : option string;
}.

(** A value of [pageByRelOutputPath]. *)
Record PageInfo : Type := MkPageInfo {
  inputPath : string;
}.

(** The plugin globals the hook closes over.  A [Set] of URLs is the list
    of its elements in insertion order, which is its iteration order. *)
Record Globals : Type := MkGlobals {
  cssUrlsByInputPath : gmap string (list string);
  pageByRelOutputPath : gmap string PageInfo;
}.

(** Vite's [HtmlTagDescriptor]: [attrs] lists the attributes in the order
    of the object literal. *)
Record HtmlTagDescriptor : Type := MkTag {
  tag : string;
  attrs : list (string * string);
}.

(** [transformIndexHtml.transform(html, ctx)], lines 160-179. *)
Definition transform (globals : Globals) (html : string)
    (ctx : IndexHtmlTransformContext) : list HtmlTagDescriptor :=
  let inputPath0 : option string :=
    if truthy (originalUrl ctx) then
      (* Dev server flow *)
      originalUrl ctx
    else
      (* Production build flow *)
      let pageInfo := pageByRelOutputPath globals !! path ctx in
      inputPath <$> pageInfo in
  if negb (truthy inputPath0) then []
  else
    match inputPath0 with
    | None => []
    | Some key =>
        match cssUrlsByInputPath globals !! key with
        | None => []
        | Some collectedCss =>
            (λ href, {| tag := "link";
                        attrs := [("rel", "stylesheet"); ("href", href)] |})
              <$> collectedCss
        end
    end.

(** The descriptor of [<link rel="stylesheet" href=...>]. *)
Definition stylesheetLink (href : string) : HtmlTagDescriptor :=
  {| tag := "link"; attrs := [("rel", "stylesheet"); ("href", href)] |}.

(** The [href] attribute of a descriptor. *)
Definition href (t : HtmlTagDescriptor) : option string :=
  snd <$> find (λ kv, String.eqb kv.1 "href") (attrs t).

(** ** Proofs *)

Lemma truthy_Some (s : string) : truthy (Some s) = true ↔ s ≠ EmptyString.
Proof.
  simpl. destruct (String.eqb_spec s EmptyString) as [->|Hne]; simpl; split;
    intros; congruence.
Qed.

Lemma hrefs_stylesheetLinks (urls : list string) :
  href <$> (stylesheetLink <$> urls) = Some <$> urls.
Proof.
  induction urls as [|u urls IH]; [done|]. rewrite !fmap_cons, IH. done.
Qed.

(** C8. Resolution and injection.  A context that carries an original
    request URL (a non-empty string: the hook tests it for truthiness) is
    keyed by that URL.  Otherwise the output path is looked up in
    [pageByRelOutputPath]: nothing is contributed when it is absent, and
    its (non-empty) input path is the key when it is present.  With the key
    resolved, the result is one stylesheet link per URL of
    [cssUrlsByInputPath] at that key, in the iteration order of the set,
    and nothing when the set is absent or empty. *)
Theorem transform_links (globals : Globals) (html : string)
    (ctx : IndexHtmlTransformContext) :
  (∀ url, originalUrl ctx = Some url → url ≠ EmptyString →
     transform globals html ctx
       = stylesheetLink <$> default [] (cssUrlsByInputPath globals !! url))
  ∧ (truthy (originalUrl ctx) = false →
     pageByRelOutputPath globals !! path ctx = None →
     transform globals html ctx = [])
  ∧ (∀ page, truthy (originalUrl ctx) = false →
     pageByRelOutputPath globals !! path ctx = Some page →
     inputPath page ≠ EmptyString →
     transform globals html ctx
       = stylesheetLink <$>
           default [] (cssUrlsByInputPath globals !! inputPath page))
  ∧ (∀ urls : list string,
       length (stylesheetLink <$> urls) = length urls
       ∧ href <$> (stylesheetLink <$> urls) = Some <$> urls).
Proof.
  unfold transform. repeat split.
  - intros url Hurl Hne. apply truthy_Some in Hne. rewrite Hurl, Hne, Hne.
    simpl. by destruct (cssUrlsByInputPath globals !! url).
  - intros Hfalsy Hpage. by rewrite Hfalsy, Hpage.
  - intros page Hfalsy Hpage Hne. apply truthy_Some in Hne.
    rewrite Hfalsy, Hpage. simpl fmap. rewrite Hne. simpl.
    by destruct (cssUrlsByInputPath globals !! inputPath page).
  - apply length_fmap.
  - apply hrefs_stylesheetLinks.
Qed.

(** The two scenarios of the specification: the page [/blog/post/] with one
    collected stylesheet, reached by URL on the dev server and by output
    path in a production build. *)
Lemma transform_links_witness :
  let globals :=
    {| cssUrlsByInputPath := {[ "/blog/post/" := ["/blog/post/index.css"] ]};
       pageByRelOutputPath :=
         {[ "blog/post/index.html" := MkPageInfo "/blog/post/" ]} |} in
  transform globals "<html></html>" (MkContext "/index.html" (Some "/blog/post/"))
    = [stylesheetLink "/blog/post/index.css"]
  ∧ transform globals "<html></html>" (MkContext "blog/post/index.html" None)
    = [stylesheetLink "/blog/post/index.css"]
  ∧ transform globals "<html></html>" (MkContext "about/index.html" None) = [].
Proof.
  intros globals. split; [|split].
  - apply (proj1 (transform_links globals "<html></html>"
                    (MkContext "/index.html" (Some "/blog/post/")))
             "/blog/post/"); [reflexivity | discriminate].
  - apply (proj1 (proj2 (proj2 (transform_links globals "<html></html>"
                    (MkContext "blog/post/index.html" None))))
             (MkPageInfo "/blog/post/")); [reflexivity | reflexivity | discriminate].
  - apply (proj1 (proj2 (transform_links globals "<html></html>"
                    (MkContext "about/index.html" None))));
      reflexivity.
Defined.

(** C10. The tags returned by the hook do not depend on the document: for
    the same globals and context, any two [html] arguments give the same
    list, and the hook returns tags only, never a document. *)
Theorem transform_ignores_html (globals : Globals) (html1 html2 : string)
    (ctx : IndexHtmlTransformContext) :
  transform globals html1 ctx = transform globals html2 ctx.
Proof. reflexivity. Qed.

(** ** Further properties of the head injector *)

(** The dev-server flow does not consult the pages: with a non-empty
    original URL, the result is the same for any [pageByRelOutputPath] and
    any output path of the context. *)
Theorem transform_dev_ignores_pages (globals : Globals) (html : string)
    (ctx : IndexHtmlTransformContext)
    (pages' : gmap string PageInfo) (path' : string) :
  truthy (originalUrl ctx) = true →
  transform {| cssUrlsByInputPath := cssUrlsByInputPath globals;
               pageByRelOutputPath := pages' |} html
            {| path := path'; originalUrl := originalUrl ctx |}
  = transform globals html ctx.
Proof. intros Hurl. unfold transform. simpl. by rewrite Hurl. Qed.

Lemma transform_dev_ignores_pages_witness :
  transform {| cssUrlsByInputPath := {[ "/post/" := ["/post/a.css"] ]};
               pageByRelOutputPath := {[ "post/index.html" := MkPageInfo "/other/" ]} |}
            "<html></html>" (MkContext "post/index.html" (Some "/post/"))
  = transform {| cssUrlsByInputPath := {[ "/post/" := ["/post/a.css"] ]};
                 pageByRelOutputPath := ∅ |}
              "<html></html>" (MkContext "/index.html" (Some "/post/")).
Proof.
  exact (transform_dev_ignores_pages
           {| cssUrlsByInputPath := {[ "/post/" := ["/post/a.css"] ]};
              pageByRelOutputPath := ∅ |}
           "<html></html>" (MkContext "/index.html" (Some "/post/"))
           {[ "post/index.html" := MkPageInfo "/other/" ]} "post/index.html"
           eq_refl).
Defined.

(** Empty strings count as missing.  An empty original URL sends the hook
    down the production flow, exactly as an absent one; and a page whose
    input path is the empty string gets no tags, even when
    [cssUrlsByInputPath] holds stylesheets under the empty key. *)
Theorem transform_empty_strings (globals : Globals) (html : string)
    (ctx : IndexHtmlTransformContext) :
  (originalUrl ctx = Some EmptyString →
   transform globals html ctx
   = transform globals html {| path := path ctx; originalUrl := None |})
  ∧ (truthy (originalUrl ctx) = false →
     inputPath <$> pageByRelOutputPath globals !! path ctx = Some EmptyString →
     transform globals html ctx = []).
Proof.
  unfold transform. split.
  - intros Hurl. by rewrite Hurl.
  - intros Hurl Hpage. by rewrite Hurl, Hpage.
Qed.

Lemma transform_empty_strings_witness :
  let globals :=
    {| cssUrlsByInputPath := {[ "" := ["/stray.css"]; "/post/" := ["/post/a.css"] ]};
       pageByRelOutputPath := {[ "post/index.html" := MkPageInfo "/post/";
                                 "index.html" := MkPageInfo "" ]} |} in
  transform globals "<html></html>" (MkContext "post/index.html" (Some ""))
    = [stylesheetLink "/post/a.css"]
  ∧ transform globals "<html></html>" (MkContext "index.html" None) = [].
Proof.
  intros globals. split.
  - rewrite (proj1 (transform_empty_strings globals "<html></html>"
                      (MkContext "post/index.html" (Some ""))) eq_refl).
    vm_compute. reflexivity.
  - apply (proj2 (transform_empty_strings globals "<html></html>"
                    (MkContext "index.html" None))); [reflexivity|].
    vm_compute. reflexivity.
Defined.

(** The hook injects nothing but stylesheet links of collected URLs: every
    descriptor it returns is the link of a URL that belongs to the set
    stored in [cssUrlsByInputPath] under some non-empty key. *)
Theorem transform_only_collected (globals : Globals) (html : string)
    (ctx : IndexHtmlTransformContext) :
  Forall (λ t, ∃ key urls url,
            key ≠ EmptyString
            ∧ cssUrlsByInputPath globals !! key = Some urls
            ∧ url ∈ urls
            ∧ t = stylesheetLink url)
    (transform globals html ctx).
Proof.
  unfold transform.
  set (resolved := if truthy (originalUrl ctx) then originalUrl ctx
                   else inputPath <$> pageByRelOutputPath globals !! path ctx).
  destruct resolved as [key|]; [|by constructor].
  destruct (truthy (Some key)) eqn:Hkey; [|by constructor]. simpl.
  apply truthy_Some in Hkey.
  destruct (cssUrlsByInputPath globals !! key) as [urls|] eqn:Hcss;
    [|by constructor].
  apply Forall_forall. intros t Ht.
  apply list_elem_of_fmap in Ht as (url & -> & Hurl).
  by exists key, urls, url.
Qed.

End InjectHead.

(** * The props virtual module *)

Module Props.

(** A client prop: its name and its serializer.  [getSerializedValue] is
    the outcome of calling the callback: the source text it returns, or
    what it throws. *)
Record ClientProp : Type := MkClientProp {
  name : string;
  getSerializedValue : Result Error string;
}.

(** A value of [propsByInputPath].  [clientPropIds] is a [Set]: the list of
    its elements in insertion order. *)
Record PropInfo : Type := MkPropInfo {
  hasStore : bool;
  props : gmap string ClientProp;
  clientPropIds : list string;
}.

Definition virtualModuleId : string := "slinkity:props:".
Definition resolvedVirtualModuleId : string := nul +:+ virtualModuleId.
Definition storeClientPath : string := "./utils/store.client.mjs".

Section WithFiles.

(** [await fs.promises.readFile(path)], read as text: the contents of the
    file when the load runs, or the error of the failed read. *)
Variable readFile : string → Result Error string.

(** The [for ... of] loop of lines 134-141 over the remaining ids, with the
    text accumulated so far. *)
Fixpoint appendEntries (props0 : gmap string ClientProp)
    (ids : list string) (propsFileContents : string) : Result Error string :=
  match ids with
  | [] => Ok propsFileContents
  | clientPropId :: rest =>
      match props0 !! clientPropId with
      | None => Err TypeError
      | Some prop =>
          let serializedKey := JSON_stringify clientPropId in
          value ← getSerializedValue prop;
          let serializedEntry :=
            "{ name: " +:+ JSON_stringify (name prop)
              +:+ ", value: " +:+ value +:+ " }" in
          appendEntries props0 rest
            (propsFileContents +:+ "  " +:+ serializedKey +:+ ": "
               +:+ serializedEntry +:+ "," +:+ nl)
      end
  end.

(** [getPropsModContents({ inputPath, propsByInputPath })], lines 125-151. *)
Definition getPropsModContents (inputPath : string)
    (propsByInputPath : gmap string PropInfo) : Result Error string :=
  let propsFileContents := "export default {" +:+ nl in
  match propsByInputPath !! inputPath with
  | Some propInfo =>
      if negb (length (clientPropIds propInfo) =? 0) then
        propsFileContents ←
          appendEntries (props propInfo) (clientPropIds propInfo)
            propsFileContents;
        let propsFileContents := propsFileContents +:+ "}" in
        if hasStore propInfo then
          helper ← readFile storeClientPath;
          Ok (propsFileContents +:+ nl +:+ helper)
        else Ok propsFileContents
      else Ok propsFileContents
  | None => Ok propsFileContents
  end.

(** The [resolveId] hook, lines 107-111: [None] declines the id. *)
Definition resolveId (id : string) : option string :=
  if startsWith id virtualModuleId then
    Some (resolvedVirtualModuleId +:+ stripPrefix virtualModuleId id)
  else None.

(** The [load] hook, lines 112-121: [None] declines the id, [Some (Ok code)]
    is [{ code }], and [Some (Err e)] a load that throws. *)
Definition load (propsByInputPath : gmap string PropInfo) (id : string)
  : option (Result Error string) :=
  if startsWith id resolvedVirtualModuleId then
    let inputPath := stripPrefix resolvedVirtualModuleId id in
    Some (getPropsModContents inputPath propsByInputPath)
  else None.

End WithFiles.

(** One emitted entry of the export object: two spaces, the JSON text of
    the id, and an object with the JSON text of the name and the raw value,
    followed by a comma and a line break. *)
Definition emittedEntry (id : string) (nv : string * string) : string :=
  "  " +:+ JSON_stringify id +:+ ": { name: " +:+ JSON_stringify nv.1
    +:+ ", value: " +:+ nv.2 +:+ " }," +:+ nl.

(** The texts of a list, one after the other. *)
Definition joinAll (texts : list string) : string :=
  foldr String.append EmptyString texts.

(** The export object with the given entries. *)
Definition exportObject (entries : list string) : string :=
  "export default {" +:+ nl +:+ joinAll entries +:+ "}".

(** Every id has a prop whose serializer returns: [nvs] lists the name and
    the serialized value of each id, in order. *)
Definition Serializable (info : PropInfo) (nvs : list (string * string)) : Prop :=
  Forall2 (λ id nv, ∃ prop, props info !! id = Some prop
                            ∧ name prop = nv.1
                            ∧ getSerializedValue prop = Ok nv.2)
    (clientPropIds info) nvs.

(** The nesting depth of braces left open at the end of a text. *)
Fixpoint openBraces (depth : nat) (s : string) : nat :=
  match s with
  | EmptyString => depth
  | String c rest =>
      if Ascii.eqb c "{" then openBraces (S depth) rest
      else if Ascii.eqb c "}" then openBraces (pred depth) rest
      else openBraces depth rest
  end.

(** A page with two client props, declared in the order [b], [a]. *)
Definition examplePage (store : bool) : PropInfo :=
  {| hasStore := store;
     props := {[ "a" := MkClientProp "count" (Ok "0");
                 "b" := MkClientProp "when" (Ok "new Date(0)") ]};
     clientPropIds := ["b"; "a"] |}.

(** The step of the loop for [id] throws [e]: the id has no prop, so the
    destructuring throws a [TypeError], or its serializer throws [e]. *)
Definition FailsWith (props0 : gmap string ClientProp) (id : string)
    (e : Error) : Prop :=
  match props0 !! id with
  | None => e = TypeError
  | Some prop => getSerializedValue prop = Err e
  end.

(** A page whose second prop cannot be serialized. *)
Definition brokenPage : PropInfo :=
  {| hasStore := true;
     props := {[ "a" := MkClientProp "count" (Ok "0");
                 "b" := MkClientProp "when" (Err (HostError "not serializable"));
                 "c" := MkClientProp "later" (Ok "1") ]};
     clientPropIds := ["a"; "b"; "c"] |}.

(** ** Proofs *)

Lemma append_assoc (s1 s2 s3 : string) : (s1 +:+ s2) +:+ s3 = s1 +:+ s2 +:+ s3.
Proof.
  induction s1 as [|c s1 IH]; [done|].
  change (String c ((s1 +:+ s2) +:+ s3) = String c (s1 +:+ s2 +:+ s3)).
  by rewrite IH.
Qed.

Lemma append_nil_r (s : string) : s +:+ EmptyString = s.
Proof.
  induction s as [|c s IH]; [done|].
  change (String c (s +:+ EmptyString) = String c s). by rewrite IH.
Qed.

Lemma length_append (s1 s2 : string) :
  String.length (s1 +:+ s2) = String.length s1 + String.length s2.
Proof.
  induction s1 as [|c s1 IH]; [done|].
  change (S (String.length (s1 +:+ s2)) = S (String.length s1 + String.length s2)).
  by rewrite IH.
Qed.

Lemma substring_all (s : string) : String.substring 0 (String.length s) s = s.
Proof. induction s as [|c s IH]; [done|]. simpl. by rewrite IH. Qed.

Lemma substring_skip (pre s : string) (n : nat) :
  String.substring (String.length pre) n (pre +:+ s) = String.substring 0 n s.
Proof. induction pre as [|c pre IH]; [done|]. exact IH. Qed.

(** [endsWith] holds of every text built by appending the suffix. *)
Lemma endsWith_append (pre suffix : string) :
  endsWith (pre +:+ suffix) suffix = true.
Proof.
  unfold endsWith. rewrite length_append.
  replace (String.length pre + String.length suffix - String.length suffix)
    with (String.length pre) by lia.
  rewrite substring_skip, substring_all, String.eqb_refl.
  rewrite andb_true_r. apply Nat.leb_le. lia.
Qed.

Section FilesProofs.

Variable readFile : string → Result Error string.

Lemma appendEntries_ok (props0 : gmap string ClientProp) (ids : list string)
    (nvs : list (string * string)) :
  Forall2 (λ id nv, ∃ prop, props0 !! id = Some prop
                            ∧ name prop = nv.1
                            ∧ getSerializedValue prop = Ok nv.2) ids nvs →
  ∀ acc, appendEntries props0 ids acc
         = Ok (acc +:+ joinAll (zip_with emittedEntry ids nvs)).
Proof.
  induction 1 as [|id nv ids nvs (prop & Hprop & Hname & Hval) _ IH];
    intros acc; simpl.
  - by rewrite append_nil_r.
  - rewrite Hprop, Hval. simpl. rewrite IH. f_equal.
    unfold emittedEntry. rewrite Hname, !append_assoc. reflexivity.
Qed.

Lemma getPropsModContents_nonempty (inputPath : string)
    (propsByInputPath : gmap string PropInfo) (info : PropInfo)
    (nvs : list (string * string)) :
  propsByInputPath !! inputPath = Some info →
  clientPropIds info ≠ [] →
  Serializable info nvs →
  getPropsModContents readFile inputPath propsByInputPath
  = let text := exportObject (zip_with emittedEntry (clientPropIds info) nvs) in
    if hasStore info then
      helper ← readFile storeClientPath; Ok (text +:+ nl +:+ helper)
    else Ok text.
Proof.
  intros Hinfo Hids Hser. unfold getPropsModContents. rewrite Hinfo.
  destruct (clientPropIds info) as [|id ids] eqn:Hlist; [done|].
  change (negb (length (id :: ids) =? 0)) with true. cbv iota.
  rewrite <- Hlist.
  rewrite (appendEntries_ok _ _ nvs) by exact Hser.
  unfold exportObject. simpl. rewrite !append_assoc. reflexivity.
Qed.

Lemma getPropsModContents_empty (inputPath : string)
    (propsByInputPath : gmap string PropInfo) :
  (clientPropIds <$> propsByInputPath !! inputPath) ∈ [None; Some []] →
  getPropsModContents readFile inputPath propsByInputPath
  = Ok ("export default {" +:+ nl).
Proof.
  intros Hin. unfold getPropsModContents.
  destruct (propsByInputPath !! inputPath) as [info|]; [|done].
  apply list_elem_of_In in Hin. simpl in Hin.
  destruct Hin as [Hin|[Hin|[]]]; [done|].
  injection Hin as <-. reflexivity.
Qed.

(** C5. For an entry with a non-empty [clientPropIds] whose ids all have a
    prop and whose serializers all return, the module is the export object
    holding exactly one entry per id, in the order of [clientPropIds]: the
    JSON text of the id, the JSON text of the name, and the serialized
    value as returned, verbatim (followed by the helper when [hasStore]).
    The text is a function of the entry alone: another path or another map
    with the same entry gives the same text. *)
Theorem getPropsModContents_entries (inputPath : string)
    (propsByInputPath : gmap string PropInfo) (info : PropInfo)
    (nvs : list (string * string)) :
  propsByInputPath !! inputPath = Some info →
  clientPropIds info ≠ [] →
  Serializable info nvs →
  getPropsModContents readFile inputPath propsByInputPath
  = (let text := exportObject (zip_with emittedEntry (clientPropIds info) nvs) in
     if hasStore info then
       helper ← readFile storeClientPath; Ok (text +:+ nl +:+ helper)
     else Ok text)
  ∧ length (zip_with emittedEntry (clientPropIds info) nvs)
    = length (clientPropIds info)
  ∧ ∀ inputPath' (propsByInputPath' : gmap string PropInfo),
      propsByInputPath' !! inputPath' = Some info →
      getPropsModContents readFile inputPath' propsByInputPath'
      = getPropsModContents readFile inputPath propsByInputPath.
Proof.
  intros Hinfo Hids Hser. split; [|split].
  - by apply getPropsModContents_nonempty.
  - rewrite length_zip_with. apply Forall2_length in Hser. lia.
  - intros inputPath' m' Hinfo'.
    rewrite (getPropsModContents_nonempty _ _ info nvs) by done.
    by rewrite (getPropsModContents_nonempty _ _ info nvs).
Qed.

(** C7, as the code has it.  For an entry with [hasStore] and a non-empty
    [clientPropIds] (ids present, serializers and the read returning), the
    module is the export object, a line break, and the exact contents of
    the helper file.  For an entry without [hasStore] the helper file is
    not read and nothing follows the export object. *)
Theorem getPropsModContents_store (inputPath : string)
    (propsByInputPath : gmap string PropInfo) (info : PropInfo)
    (nvs : list (string * string)) :
  propsByInputPath !! inputPath = Some info →
  let text := exportObject (zip_with emittedEntry (clientPropIds info) nvs) in
  (hasStore info = true → clientPropIds info ≠ [] → Serializable info nvs →
   ∀ helper, readFile storeClientPath = Ok helper →
     getPropsModContents readFile inputPath propsByInputPath
       = Ok (text +:+ nl +:+ helper)
     ∧ endsWith (text +:+ nl +:+ helper) helper = true)
  ∧ (hasStore info = false →
     (∀ readFile' : string → Result Error string,
        getPropsModContents readFile' inputPath propsByInputPath
        = getPropsModContents readFile inputPath propsByInputPath)
     ∧ (clientPropIds info ≠ [] → Serializable info nvs →
        getPropsModContents readFile inputPath propsByInputPath = Ok text)).
Proof.
  intros Hinfo text. split.
  - intros Hstore Hids Hser helper Hread.
    rewrite (getPropsModContents_nonempty _ _ info nvs) by done.
    rewrite Hstore, Hread. split; [done|].
    rewrite <- append_assoc. apply endsWith_append.
  - intros Hstore. split.
    + intros readFile'. unfold getPropsModContents. rewrite Hinfo, Hstore.
      reflexivity.
    + intros Hids Hser.
      rewrite (getPropsModContents_nonempty _ _ info nvs) by done.
      by rewrite Hstore.
Qed.

(** ** Further properties of the props module *)

Lemma prefix_append (pre s : string) : String.prefix pre (pre +:+ s) = true.
Proof.
  apply String.prefix_correct.
  induction pre as [|c pre IH]; [by destruct s|].
  change (String c (String.substring 0 (String.length pre) (pre +:+ s))
          = String c pre).
  by rewrite IH.
Qed.

Lemma stripPrefix_append (pre s : string) : stripPrefix pre (pre +:+ s) = s.
Proof.
  unfold stripPrefix. rewrite length_append.
  replace (String.length pre + String.length s - String.length pre)
    with (String.length s) by lia.
  by rewrite substring_skip, substring_all.
Qed.

(** The two hooks compose: the id of the virtual module of a page resolves
    to the marked id, and loading the marked id generates the module of
    that very page, whatever characters the input path holds. *)
Theorem resolveId_load (propsByInputPath : gmap string PropInfo)
    (inputPath : string) :
  resolveId (virtualModuleId +:+ inputPath)
    = Some (resolvedVirtualModuleId +:+ inputPath)
  ∧ load readFile propsByInputPath (resolvedVirtualModuleId +:+ inputPath)
    = Some (getPropsModContents readFile inputPath propsByInputPath).
Proof.
  unfold resolveId, load, startsWith.
  by rewrite !prefix_append, !stripPrefix_append.
Qed.

Lemma prefix_head (a : ascii) (pre s : string) :
  String.prefix (String a pre) s = true → ∃ rest, s = String a rest.
Proof.
  destruct s as [|c s]; [discriminate|].
  change (match ascii_dec a c with
          | left _ => String.prefix pre s
          | right _ => false
          end = true → ∃ rest, String c s = String a rest).
  destruct (ascii_dec a c) as [->|]; [by eexists | discriminate].
Qed.

(** The hooks never take each other's ids: [load] declines every id that
    starts with the public prefix (it handles marked ids only), and
    [resolveId] declines every marked id. *)
Theorem hooks_decline (propsByInputPath : gmap string PropInfo) (id : string) :
  (startsWith id virtualModuleId = true →
   load readFile propsByInputPath id = None)
  ∧ (startsWith id resolvedVirtualModuleId = true → resolveId id = None).
Proof.
  unfold load, resolveId, startsWith. split; intros Hpre;
    apply prefix_head in Hpre as [rest ->]; reflexivity.
Qed.

Lemma appendEntries_fails (props0 : gmap string ClientProp)
    (done_ids : list string) (nvs : list (string * string))
    (bad : string) (rest : list string) (e : Error) :
  Forall2 (λ id nv, ∃ prop, props0 !! id = Some prop
                            ∧ name prop = nv.1
                            ∧ getSerializedValue prop = Ok nv.2) done_ids nvs →
  FailsWith props0 bad e →
  ∀ acc, appendEntries props0 (done_ids ++ bad :: rest) acc = Err e.
Proof.
  intros Hok Hbad.
  induction Hok as [|id nv ids nvs' (prop & Hprop & _ & Hval) _ IH];
    intros acc; simpl.
  - unfold FailsWith in Hbad. destruct (props0 !! bad) as [prop|].
    + by rewrite Hbad.
    + by rewrite Hbad.
  - rewrite Hprop, Hval. simpl. apply IH.
Qed.

(** The load fails at the first id, in [clientPropIds] order, that has no
    prop or whose serializer throws, with that error; the ids after it are
    not reached and the helper file is not read, so neither a later
    failure nor the helper changes the outcome. *)
Theorem getPropsModContents_first_failure (inputPath : string)
    (propsByInputPath : gmap string PropInfo) (info : PropInfo)
    (done_ids : list string) (nvs : list (string * string))
    (bad : string) (rest : list string) (e : Error) :
  propsByInputPath !! inputPath = Some info →
  clientPropIds info = done_ids ++ bad :: rest →
  Forall2 (λ id nv, ∃ prop, props info !! id = Some prop
                            ∧ name prop = nv.1
                            ∧ getSerializedValue prop = Ok nv.2) done_ids nvs →
  FailsWith (props info) bad e →
  getPropsModContents readFile inputPath propsByInputPath = Err e.
Proof.
  intros Hinfo Hids Hok Hbad. unfold getPropsModContents.
  rewrite Hinfo, Hids.
  replace (negb (length (done_ids ++ bad :: rest) =? 0)) with true.
  - by rewrite (appendEntries_fails _ _ nvs _ _ e).
  - rewrite length_app. simpl. symmetry. apply negb_true_iff, Nat.eqb_neq. lia.
Qed.

(** A failed read of the helper file fails the load: for an entry with
    [hasStore] whose entries were all generated, the error of [readFile]
    is the outcome, and no text is returned. *)
Theorem getPropsModContents_read_failure (inputPath : string)
    (propsByInputPath : gmap string PropInfo) (info : PropInfo)
    (nvs : list (string * string)) (e : Error) :
  propsByInputPath !! inputPath = Some info →
  clientPropIds info ≠ [] →
  Serializable info nvs →
  hasStore info = true →
  readFile storeClientPath = Err e →
  getPropsModContents readFile inputPath propsByInputPath = Err e.
Proof.
  intros Hinfo Hids Hser Hstore Hread.
  rewrite (getPropsModContents_nonempty _ _ info nvs) by done.
  by rewrite Hstore, Hread.
Qed.

End FilesProofs.

Lemma examplePage_Serializable (store : bool) :
  Serializable (examplePage store) [("when", "new Date(0)"); ("count", "0")].
Proof.
  repeat constructor; eexists; (split; [reflexivity|split; reflexivity]).
Qed.

Lemma getPropsModContents_entries_witness :
  getPropsModContents (λ _, Err (SystemError "ENOENT")) "/index.md"
    {[ "/index.md" := examplePage false ]}
  = Ok (exportObject [emittedEntry "b" ("when", "new Date(0)");
                      emittedEntry "a" ("count", "0")]).
Proof.
  refine (proj1 (getPropsModContents_entries (λ _, Err (SystemError "ENOENT"))
                   "/index.md" {[ "/index.md" := examplePage false ]}
                   (examplePage false) _ _ _
                   (examplePage_Serializable false))).
  - vm_compute. reflexivity.
  - discriminate.
Defined.

Lemma getPropsModContents_store_witness :
  getPropsModContents (λ _, Ok "export const store = 1;") "/index.md"
    {[ "/index.md" := examplePage true ]}
  = Ok (exportObject [emittedEntry "b" ("when", "new Date(0)");
                      emittedEntry "a" ("count", "0")]
        +:+ nl +:+ "export const store = 1;")
  ∧ getPropsModContents (λ _, Ok "export const store = 1;") "/index.md"
      {[ "/index.md" := examplePage false ]}
    = Ok (exportObject [emittedEntry "b" ("when", "new Date(0)");
                        emittedEntry "a" ("count", "0")]).
Proof.
  split.
  - refine (proj1 (proj1 (getPropsModContents_store
                     (λ _, Ok "export const store = 1;")
                     "/index.md" {[ "/index.md" := examplePage true ]}
                     (examplePage true) _ _)
              eq_refl _ (examplePage_Serializable true)
              "export const store = 1;" eq_refl)).
    + vm_compute. reflexivity.
    + discriminate.
  - refine (proj2 (proj2 (getPropsModContents_store
                     (λ _, Ok "export const store = 1;")
                     "/index.md" {[ "/index.md" := examplePage false ]}
                     (examplePage false) _ _)
              eq_refl) _ (examplePage_Serializable false)).
    + vm_compute. reflexivity.
    + discriminate.
Defined.

Lemma resolveId_load_witness :
  resolveId "slinkity:props:/blog/post.md"
    ≫= load (λ _, Err (SystemError "ENOENT"))
          {[ "/blog/post.md" := examplePage false ]}
  = Some (Ok (exportObject [emittedEntry "b" ("when", "new Date(0)");
                            emittedEntry "a" ("count", "0")])).
Proof.
  destruct (resolveId_load (λ _, Err (SystemError "ENOENT"))
              {[ "/blog/post.md" := examplePage false ]} "/blog/post.md")
    as [Hres Hload].
  change (virtualModuleId +:+ "/blog/post.md")
    with "slinkity:props:/blog/post.md" in Hres.
  rewrite Hres. simpl. rewrite Hload. vm_compute. reflexivity.
Defined.

Lemma hooks_decline_witness :
  load (λ _, Ok "helper") ∅ "slinkity:props:/index.md" = None
  ∧ resolveId (resolvedVirtualModuleId +:+ "/index.md") = None.
Proof.
  split.
  - apply (proj1 (hooks_decline (λ _, Ok "helper") ∅
                    "slinkity:props:/index.md")). reflexivity.
  - apply (proj2 (hooks_decline (λ _, Ok "helper") ∅
                    (resolvedVirtualModuleId +:+ "/index.md"))). reflexivity.
Defined.

Lemma getPropsModContents_first_failure_witness :
  getPropsModContents (λ _, Ok "helper") "/index.md"
    {[ "/index.md" := brokenPage ]}
  = Err (HostError "not serializable").
Proof.
  refine (getPropsModContents_first_failure (λ _, Ok "helper") "/index.md"
            {[ "/index.md" := brokenPage ]} brokenPage
            ["a"] [("count", "0")] "b" ["c"] _ _ eq_refl _ _).
  - vm_compute. reflexivity.
  - repeat constructor. eexists. split; [reflexivity|split; reflexivity].
  - reflexivity.
Defined.

Lemma getPropsModContents_read_failure_witness :
  getPropsModContents (λ _, Err (SystemError "ENOENT")) "/index.md"
    {[ "/index.md" := examplePage true ]}
  = Err (SystemError "ENOENT").
Proof.
  refine (getPropsModContents_read_failure (λ _, Err (SystemError "ENOENT"))
            "/index.md" {[ "/index.md" := examplePage true ]} (examplePage true)
            _ _ _ _ (examplePage_Serializable true) eq_refl eq_refl).
  - vm_compute. reflexivity.
  - discriminate.
Defined.

(** C7 as stated fails: an entry with [hasStore] but no client prop ids gets
    the unfinished export shell, and the helper is not appended. *)
Lemma getPropsModContents_store_counterexample :
  let info := {| hasStore := true; props := ∅; clientPropIds := [] |} in
  let result :=
    getPropsModContents (λ _, Ok "export const store = 1;") "/index.md"
      {[ "/index.md" := info ]} in
  result = Ok ("export default {" +:+ nl)
  ∧ endsWith ("export default {" +:+ nl) "export const store = 1;" = false.
Proof. split; vm_compute; reflexivity. Qed.

(** C6 fails on the code.  For a path without an entry, and for an entry
    without client prop ids, the [load] hook returns the opening line of
    the export object and nothing else: the brace it opens is never closed,
    so the text is not a complete module. *)
Theorem load_empty_props_unterminated :
  let id := resolvedVirtualModuleId +:+ "/about.md" in
  let info := {| hasStore := false; props := ∅; clientPropIds := [] |} in
  load (λ _, Err (SystemError "ENOENT")) ∅ id
    = Some (Ok ("export default {" +:+ nl))
  ∧ load (λ _, Err (SystemError "ENOENT")) {[ "/about.md" := info ]} id
    = Some (Ok ("export default {" +:+ nl))
  ∧ openBraces 0 ("export default {" +:+ nl) = 1.
Proof. repeat split; vm_compute; reflexivity. Qed.

End Props.

(** * The production build *)

Module Build.

Import Merge.

(** ** The file system *)

(** The file system is the listing of its entries: every existing file and
    directory with its path.  The order of the listing is the order in
    which a scan meets the entries. *)
Inductive Node : Type :=
| File (content : string)
| Directory.

Abbreviation FileSystem := (list (Path * Node)).

(** A call on the file system: its outcome and the file system it leaves. *)
Abbreviation Effect A := (FileSystem → Result Error A * FileSystem).

Definition pathExists (fs : FileSystem) (p : Path) : bool :=
  bool_decide (p ∈ fs.*1).

(** [p] is [dir] or lies below it. *)
Definition isUnder (dir p : Path) : bool := bool_decide (dir `prefix_of` p).

(** Some entry lies strictly below [dir]. *)
Definition hasChildren (fs : FileSystem) (dir : Path) : bool :=
  existsb (λ e, isUnder dir e.1 && negb (bool_decide (e.1 = dir))) fs.

(** The path of an entry after [oldPath] has become [newPath]. *)
Definition movedPath (oldPath newPath p : Path) : Path :=
  if isUnder oldPath p then newPath ++ drop (length oldPath) p else p.

(** [await fs.promises.rename(oldPath, newPath)], after rename(2): the
    source must exist; renaming a path to itself does nothing; a directory
    cannot move below itself; the target may be replaced unless it is a
    directory with entries.  On success the entry and everything below it
    move.  (The conditions on the parent of the target and on replacing a
    file by a directory are left out: they make more calls fail and change
    no successful one.) *)
Definition rename (oldPath newPath : Path) : Effect unit := λ fs,
  if negb (pathExists fs oldPath) then (Err (SystemError "ENOENT"), fs)
  else if bool_decide (oldPath = newPath) then (Ok (), fs)
  else if isUnder oldPath newPath then (Err (SystemError "EINVAL"), fs)
  else if hasChildren fs newPath then (Err (SystemError "ENOTEMPTY"), fs)
  else
    (Ok (),
     (λ e, (movedPath oldPath newPath e.1, e.2))
       <$> filter (λ e, e.1 ≠ newPath) fs).

(** [await fs.promises.rm(p, { recursive: true })]: without [force], a
    missing path is an error; otherwise the entry and everything below it
    are removed. *)
Definition rm (p : Path) : Effect unit := λ fs,
  if pathExists fs p then (Ok (), filter (λ e, ¬ p `prefix_of` e.1) fs)
  else (Err (SystemError "ENOENT"), fs).

(** ** The build *)

(** Eleventy's directories, as far as the build reads them. *)
Record EleventyDir : Type := MkEleventyDir {
  output : Path;
}.

Section WithHost.

(** The host: [vite.mergeConfig]; [vite.build], which may write anything
    anywhere and may fail; and fast-glob's [sync] on the pattern
    [dir/**/*.html] with absolute results. *)
Variable mergeConfig : Config → Config → Config.
Variable viteBuild : Config → Effect unit.
Variable globSync : Path → FileSystem → list Path.

(** [productionBuild], lines 13-56.  The plugins of the configuration are
    the two plugin objects, named here by their [name] property. *)
Definition productionBuild (userConfig : UserConfig)
    (eleventyConfigDir : EleventyDir) : Effect unit := λ fs,
  let eleventyTempBuildDir := buildTempDir userConfig in
  let resolvedOutput := output eleventyConfigDir in
  match rename resolvedOutput eleventyTempBuildDir fs with
  | (Err e, fs1) => (Err e, fs1)
  | (Ok _, fs1) =>
      let '(outcome, fs2) :=
        (* try *)
        let inputFiles := globSync eleventyTempBuildDir fs1 in
        if length inputFiles =? 0 then
          (Err (JsError "Output directory empty!"), fs1)
        else
          let viteConfig0 : Config :=
            {[ "root" := Str (path_string eleventyTempBuildDir);
               "mode" := Str "production";
               "plugins" := Arr [Opaque "slinkity-props-plugin";
                                 Opaque "vite-plugin-slinkity-inject-head"];
               "build" := Obj
                 {[ "minify" := Bool false;
                    "outDir" := Str (path_string resolvedOutput);
                    "emptyOutDir" := Bool true;
                    "rollupOptions" := Obj
                      {[ "input" := Arr (Str ∘ path_string <$> inputFiles) ]}
                 ]} ]} in
          let viteConfig0 :=
            mergeRendererConfigs mergeConfig viteConfig0 (Some userConfig) in
          viteBuild viteConfig0 fs1 in
      (* finally: an error of the removal replaces the outcome *)
      match rm eleventyTempBuildDir fs2 with
      | (Err e, fs3) => (Err e, fs3)
      | (Ok _, fs3) => (outcome, fs3)
      end
  end.

End WithHost.

(** The configuration [productionBuild] hands to [vite.build] for the
    entry files [inputFiles], lines 33-49. *)
Definition productionViteConfig (mergeConfig : Config → Config → Config)
    (userConfig : UserConfig) (eleventyConfigDir : EleventyDir)
    (inputFiles : list Path) : Config :=
  let eleventyTempBuildDir := buildTempDir userConfig in
  let resolvedOutput := output eleventyConfigDir in
  let viteConfig0 : Config :=
    {[ "root" := Str (path_string eleventyTempBuildDir);
       "mode" := Str "production";
       "plugins" := Arr [Opaque "slinkity-props-plugin";
                         Opaque "vite-plugin-slinkity-inject-head"];
       "build" := Obj
         {[ "minify" := Bool false;
            "outDir" := Str (path_string resolvedOutput);
            "emptyOutDir" := Bool true;
            "rollupOptions" := Obj
              {[ "input" := Arr (Str ∘ path_string <$> inputFiles) ]}
         ]} ]} in
  mergeRendererConfigs mergeConfig viteConfig0 (Some userConfig).

(** What the [finally] block makes of the outcome of the [try] block. *)
Definition finallyRemove (tmp : Path)
    (tried : Result Error unit * FileSystem) : Result Error unit * FileSystem :=
  match rm tmp tried.2 with
  | (Err e, fs3) => (Err e, fs3)
  | (Ok _, fs3) => (tried.1, fs3)
  end.

(** No renderers, and a renderer that adds a plugin. *)
Definition plainUserConfig : UserConfig :=
  {| renderers := None; buildTempDir := ["site"; ".tmp"] |}.


(** A bundler that succeeds after removing the scratch directory itself. *)
Definition bundlerCleans : Config → Effect unit := λ _ fs,
  (Ok (), filter (λ e, ¬ ["site"; ".tmp"] `prefix_of` e.1) fs).

(** A model of fast-glob on [dir/**/*.html] with its default options: the
    files below [dir] whose name ends in [.html], skipping names and
    directories that start with a dot. *)
Definition isHidden (segment : string) : bool := String.prefix "." segment.

Definition htmlFiles (dir : Path) (fs : FileSystem) : list Path :=
  fst <$> filter (λ e,
    match e.2 with
    | File _ =>
        isUnder dir e.1
        && forallb (λ seg, negb (isHidden seg)) (drop (length dir) e.1)
        && match last e.1 with
           | Some file => endsWith file ".html"
           | None => false
           end
        && negb (bool_decide (e.1 = dir))
    | Directory => false
    end = true) fs.

(** A site with one page and a site with a stylesheet only, both written
    to [/site/_site]; the scratch directory is [/site/.tmp]. *)
Definition siteWithPage : FileSystem :=
  [ (["site"], Directory);
    (["site"; "_site"], Directory);
    (["site"; "_site"; "index.html"], File "<html></html>") ].

Definition siteWithoutPages : FileSystem :=
  [ (["site"], Directory);
    (["site"; "_site"], Directory);
    (["site"; "_site"; "main.css"], File "body {}") ].

Definition exampleUserConfig : UserConfig :=
  {| renderers := Some [MkRenderer None]; buildTempDir := ["site"; ".tmp"] |}.

Definition exampleDir : EleventyDir := {| output := ["site"; "_site"] |}.

(** A bundler that writes the bundled page to the output directory, and one
    that fails after writing a partial file into the scratch directory. *)
Definition bundlerWrites : Config → Effect unit := λ _ fs,
  (Ok (), fs ++ [ (["site"; "_site"], Directory);
                  (["site"; "_site"; "index.html"], File "<html>bundled</html>") ]).

Definition bundlerFails : Config → Effect unit := λ _ fs,
  (Err (HostError "build failed"),
   fs ++ [ (["site"; ".tmp"; "partial.js"], File "x") ]).

(** ** Proofs *)

Lemma pathExists_true (fs : FileSystem) (p : Path) :
  pathExists fs p = true ↔ ∃ n, (p, n) ∈ fs.
Proof.
  unfold pathExists. rewrite bool_decide_eq_true, list_elem_of_fmap. split.
  - intros ([q n] & -> & Hin). by exists n.
  - intros (n & Hin). by exists (p, n).
Qed.

Lemma pathExists_false (fs : FileSystem) (p : Path) :
  pathExists fs p = false ↔ ∀ n, (p, n) ∉ fs.
Proof.
  rewrite <- not_true_iff_false, pathExists_true. split.
  - intros Hno n Hin. apply Hno. by exists n.
  - intros Hno (n & Hin). by apply (Hno n).
Qed.

Lemma isUnder_true (dir p : Path) : isUnder dir p = true ↔ dir `prefix_of` p.
Proof. apply bool_decide_eq_true. Qed.

Lemma isUnder_refl (p : Path) : isUnder p p = true.
Proof. by apply isUnder_true. Qed.

(** After [rm] the path does not exist, whether the call succeeded or not. *)
Lemma rm_gone (p : Path) (fs : FileSystem) : pathExists (rm p fs).2 p = false.
Proof.
  unfold rm. destruct (pathExists fs p) eqn:Hex; simpl; [|done].
  apply pathExists_false. intros n Hin.
  apply list_elem_of_filter in Hin as [Hnot _]. by apply Hnot.
Qed.

Lemma rm_exists (p : Path) (fs : FileSystem) :
  pathExists fs p = true →
  rm p fs = (Ok (), filter (λ e, ¬ p `prefix_of` e.1) fs).
Proof. intros Hex. unfold rm. by rewrite Hex. Qed.

(** What a successful [rename] leaves: the file system itself when the two
    paths agree, the moved listing otherwise. *)
Lemma rename_ok (oldPath newPath : Path) (fs fs1 : FileSystem) :
  rename oldPath newPath fs = (Ok (), fs1) →
  pathExists fs oldPath = true
  ∧ (oldPath = newPath ∧ fs1 = fs
     ∨ oldPath ≠ newPath
       ∧ ¬ oldPath `prefix_of` newPath
       ∧ hasChildren fs newPath = false
       ∧ fs1 = (λ e, (movedPath oldPath newPath e.1, e.2))
                 <$> filter (λ e, e.1 ≠ newPath) fs).
Proof.
  unfold rename. destruct (pathExists fs oldPath) eqn:Hex; simpl; [|done].
  case_bool_decide as Heq.
  { intros Hok. inversion Hok. split; [done|]. by left. }
  destruct (isUnder oldPath newPath) eqn:Hunder; [done|].
  destruct (hasChildren fs newPath) eqn:Hch; [done|].
  intros Hok. inversion Hok. split; [done|]. right.
  repeat split; try done.
  intros Hpre. apply isUnder_true in Hpre. congruence.
Qed.

(** After a successful [rename] the new path exists. *)
Lemma rename_ok_exists (oldPath newPath : Path) (fs fs1 : FileSystem) :
  rename oldPath newPath fs = (Ok (), fs1) → pathExists fs1 newPath = true.
Proof.
  intros Hok. apply rename_ok in Hok as (Hex & [(-> & ->)|(Hne & _ & _ & ->)]);
    [done|].
  apply pathExists_true in Hex as (n & Hin). apply pathExists_true.
  exists n. apply list_elem_of_fmap. exists (oldPath, n). split.
  - unfold movedPath. simpl. rewrite isUnder_refl, drop_all, app_nil_r. done.
  - apply list_elem_of_filter. done.
Qed.

(** After a successful [rename] to another path, nothing is left at the old
    path or below it. *)
Lemma rename_ok_moved (oldPath newPath : Path) (fs fs1 : FileSystem) :
  rename oldPath newPath fs = (Ok (), fs1) → oldPath ≠ newPath →
  ∀ q, oldPath `prefix_of` q → pathExists fs1 q = false.
Proof.
  intros Hok Hne q Hq.
  apply rename_ok in Hok as (Hex & [(-> & _)|(_ & Hnot & Hch & ->)]); [done|].
  apply pathExists_false. intros n Hin.
  apply list_elem_of_fmap in Hin as ([p m] & Heq & Hin). simpl in Heq.
  injection Heq as Hq' _. apply list_elem_of_filter in Hin as [Hp Hin].
  simpl in Hp. unfold movedPath in Hq'.
  destruct (isUnder oldPath p) eqn:Hunder.
  - (* a moved entry: [oldPath] and [newPath] would be comparable *)
    subst q.
    destruct (prefix_weak_total oldPath newPath
                (newPath ++ drop (length oldPath) p)) as [Hpre|Hpre];
      [done | by apply prefix_app_r | done |].
    (* [newPath] is a proper prefix of [oldPath], which exists *)
    apply pathExists_true in Hex as (k & Hold).
    assert (Hch' : hasChildren fs newPath = true); [|congruence].
    apply existsb_exists. exists (oldPath, k). split.
    + by apply list_elem_of_In.
    + simpl. apply andb_true_iff. split; [by apply isUnder_true|].
      apply negb_true_iff, bool_decide_eq_false. done.
  - subst q. apply isUnder_true in Hq. congruence.
Qed.

Section HostProofs.

Variable mergeConfig : Config → Config → Config.
Variable viteBuild : Config → Effect unit.
Variable globSync : Path → FileSystem → list Path.

(** C2. Whenever the initial [rename] succeeds, the scratch directory does
    not exist in the file system that [productionBuild] leaves, whatever
    the bundler did and however the build ended: with the bundler's
    success, with the empty-output error, or with the bundler's error. *)
Theorem productionBuild_removes_temp (userConfig : UserConfig)
    (eleventyConfigDir : EleventyDir) (fs fs1 : FileSystem) :
  rename (output eleventyConfigDir) (buildTempDir userConfig) fs = (Ok (), fs1) →
  pathExists
    (productionBuild mergeConfig viteBuild globSync userConfig
       eleventyConfigDir fs).2
    (buildTempDir userConfig) = false.
Proof.
  intros Hren. unfold productionBuild. rewrite Hren.
  match goal with
  | |- context [let '(outcome, fs2) := ?body in _] =>
      destruct body as [outcome fs2]
  end.
  pose proof (rm_gone (buildTempDir userConfig) fs2) as Hgone.
  by destruct (rm (buildTempDir userConfig) fs2) as [[[]|e] fs3].
Qed.

(** C3. When the [rename] has succeeded and the scan finds no HTML file,
    the bundler is not run; the scratch directory is removed; the call
    then fails with the error [Output directory empty!]; and nothing is
    left at the output path or below it: the content was moved to the
    scratch directory and removed with it. *)
Theorem productionBuild_empty_output (userConfig : UserConfig)
    (eleventyConfigDir : EleventyDir) (fs fs1 : FileSystem) :
  rename (output eleventyConfigDir) (buildTempDir userConfig) fs = (Ok (), fs1) →
  globSync (buildTempDir userConfig) fs1 = [] →
  productionBuild mergeConfig viteBuild globSync userConfig eleventyConfigDir fs
    = (Err (JsError "Output directory empty!"),
       filter (λ e, ¬ buildTempDir userConfig `prefix_of` e.1) fs1)
  ∧ pathExists (filter (λ e, ¬ buildTempDir userConfig `prefix_of` e.1) fs1)
      (buildTempDir userConfig) = false
  ∧ ∀ q, output eleventyConfigDir `prefix_of` q →
      pathExists (filter (λ e, ¬ buildTempDir userConfig `prefix_of` e.1) fs1)
        q = false.
Proof.
  intros Hren Hglob.
  set (tmp := buildTempDir userConfig) in *.
  set (out := output eleventyConfigDir) in *.
  pose proof (rename_ok_exists _ _ _ _ Hren) as Hex.
  split; [|split].
  - unfold productionBuild. fold tmp out. rewrite Hren, Hglob. simpl.
    by rewrite (rm_exists _ _ Hex).
  - apply pathExists_false. intros n Hin.
    apply list_elem_of_filter in Hin as [Hnot _]. by apply Hnot.
  - intros q Hq. apply pathExists_false. intros n Hin.
    apply list_elem_of_filter in Hin as [Hnot Hin]. simpl in Hnot.
    destruct (decide (out = tmp)) as [Heq|Hne].
    + apply Hnot. by rewrite <- Heq.
    + pose proof (rename_ok_moved _ _ _ _ Hren Hne q Hq) as Hgone.
      exact (proj1 (pathExists_false _ _) Hgone n Hin).
Qed.

(** ** Further properties of the build *)

Lemma rename_err (oldPath newPath : Path) (fs fs' : FileSystem) (e : Error) :
  rename oldPath newPath fs = (Err e, fs') → fs' = fs.
Proof.
  unfold rename.
  destruct (pathExists fs oldPath); simpl; [|by intros [= _ <-]].
  case_bool_decide; [done|].
  destruct (isUnder oldPath newPath); [by intros [= _ <-]|].
  destruct (hasChildren fs newPath); [by intros [= _ <-]|]. done.
Qed.

(** With the [rename] done and entry files found, the build is the
    bundler's run on the production configuration followed by the
    removal of the scratch directory. *)
Lemma productionBuild_bundles (userConfig : UserConfig)
    (eleventyConfigDir : EleventyDir) (fs fs1 : FileSystem) :
  rename (output eleventyConfigDir) (buildTempDir userConfig) fs = (Ok (), fs1) →
  globSync (buildTempDir userConfig) fs1 ≠ [] →
  productionBuild mergeConfig viteBuild globSync userConfig eleventyConfigDir fs
  = finallyRemove (buildTempDir userConfig)
      (viteBuild
         (productionViteConfig mergeConfig userConfig eleventyConfigDir
            (globSync (buildTempDir userConfig) fs1)) fs1).
Proof.
  intros Hren Hglob. unfold productionBuild. rewrite Hren.
  destruct (globSync (buildTempDir userConfig) fs1) as [|f files] eqn:Hfiles;
    [done|].
  change (length (f :: files) =? 0) with false. cbv iota.
  unfold finallyRemove, productionViteConfig.
  by destruct (viteBuild _ fs1) as [outcome fs2].
Qed.

(** A failed [rename] ends the build at once: the error is the outcome,
    the file system is left as it was (a scratch directory that was there
    before is not removed), and neither the scan nor the bundler runs. *)
Theorem productionBuild_rename_fails (userConfig : UserConfig)
    (eleventyConfigDir : EleventyDir) (fs fs' : FileSystem) (e : Error) :
  rename (output eleventyConfigDir) (buildTempDir userConfig) fs = (Err e, fs') →
  productionBuild mergeConfig viteBuild globSync userConfig eleventyConfigDir fs
  = (Err e, fs).
Proof.
  intros Hren. unfold productionBuild. rewrite Hren.
  by rewrite (rename_err _ _ _ _ _ Hren).
Qed.

(** The bundler's outcome is the build's outcome: when the scratch
    directory still exists after the bundler has run, the build returns
    what the bundler returned, its success or its error, and leaves the
    bundler's file system without the scratch directory and what is below
    it; every other entry stays. *)
Theorem productionBuild_bundler_outcome (userConfig : UserConfig)
    (eleventyConfigDir : EleventyDir) (fs fs1 fs2 : FileSystem)
    (outcome : Result Error unit) :
  rename (output eleventyConfigDir) (buildTempDir userConfig) fs = (Ok (), fs1) →
  globSync (buildTempDir userConfig) fs1 ≠ [] →
  viteBuild
    (productionViteConfig mergeConfig userConfig eleventyConfigDir
       (globSync (buildTempDir userConfig) fs1)) fs1 = (outcome, fs2) →
  pathExists fs2 (buildTempDir userConfig) = true →
  productionBuild mergeConfig viteBuild globSync userConfig eleventyConfigDir fs
  = (outcome, filter (λ e, ¬ buildTempDir userConfig `prefix_of` e.1) fs2).
Proof.
  intros Hren Hglob Hbuild Hex.
  rewrite (productionBuild_bundles _ _ _ _ Hren Hglob), Hbuild.
  unfold finallyRemove. simpl. by rewrite (rm_exists _ _ Hex).
Qed.

(** A vanished scratch directory fails the build: [rm] is called without
    [force], so when the scratch directory no longer exists after the
    bundler has run, the build fails with [ENOENT], even if the bundler
    succeeded, and the bundler's own error, if any, is lost. *)
Theorem productionBuild_scratch_vanished (userConfig : UserConfig)
    (eleventyConfigDir : EleventyDir) (fs fs1 fs2 : FileSystem)
    (outcome : Result Error unit) :
  rename (output eleventyConfigDir) (buildTempDir userConfig) fs = (Ok (), fs1) →
  globSync (buildTempDir userConfig) fs1 ≠ [] →
  viteBuild
    (productionViteConfig mergeConfig userConfig eleventyConfigDir
       (globSync (buildTempDir userConfig) fs1)) fs1 = (outcome, fs2) →
  pathExists fs2 (buildTempDir userConfig) = false →
  productionBuild mergeConfig viteBuild globSync userConfig eleventyConfigDir fs
  = (Err (SystemError "ENOENT"), fs2).
Proof.
  intros Hren Hglob Hbuild Hex.
  rewrite (productionBuild_bundles _ _ _ _ Hren Hglob), Hbuild.
  unfold finallyRemove, rm. simpl. by rewrite Hex.
Qed.

Lemma filter_moved (out tmp : Path) (fs : FileSystem) :
  out ≠ tmp →
  filter (λ e, ¬ tmp `prefix_of` e.1)
    ((λ e, (movedPath out tmp e.1, e.2)) <$> filter (λ e, e.1 ≠ tmp) fs)
  = filter (λ e, ¬ out `prefix_of` e.1 ∧ ¬ tmp `prefix_of` e.1) fs.
Proof.
  intros Hne. induction fs as [|[p n] fs IH]; [done|].
  rewrite (filter_cons (λ e, e.1 ≠ tmp)), (filter_cons (λ e, ¬ out `prefix_of` e.1 ∧ _)).
  simpl. destruct (decide (p ≠ tmp)) as [Hp|Hp].
  - rewrite fmap_cons, filter_cons. simpl.
    destruct (isUnder out p) eqn:Hunder.
    + assert (Hm : tmp `prefix_of` movedPath out tmp p).
      { unfold movedPath. rewrite Hunder. by apply prefix_app_r. }
      apply isUnder_true in Hunder.
      rewrite decide_False by (intros Hnot; by apply Hnot).
      rewrite decide_False by (intros [Hnot _]; by apply Hnot).
      exact IH.
    + assert (Hm : movedPath out tmp p = p).
      { unfold movedPath. by rewrite Hunder. }
      rewrite Hm.
      assert (Hout : ¬ out `prefix_of` p).
      { intros Hpre. apply isUnder_true in Hpre. congruence. }
      destruct (decide (tmp `prefix_of` p)) as [Htmp|Htmp].
      * rewrite decide_False by (intros Hnot; by apply Hnot).
        rewrite decide_False by (intros [_ Hnot]; by apply Hnot).
        exact IH.
      * rewrite decide_True by done. rewrite decide_True by done.
        f_equal. exact IH.
  - apply dec_stable in Hp as ->.
    rewrite decide_False by (intros [_ Hnot]; by apply Hnot).
    exact IH.
Qed.

(** What an empty-output failure costs: the file system left behind is
    the original one without the output directory, the scratch directory,
    and everything below them.  Every other entry is kept, in place. *)
Theorem productionBuild_empty_frame (userConfig : UserConfig)
    (eleventyConfigDir : EleventyDir) (fs fs1 : FileSystem) :
  rename (output eleventyConfigDir) (buildTempDir userConfig) fs = (Ok (), fs1) →
  globSync (buildTempDir userConfig) fs1 = [] →
  (productionBuild mergeConfig viteBuild globSync userConfig
     eleventyConfigDir fs).2
  = filter (λ e, ¬ output eleventyConfigDir `prefix_of` e.1
                 ∧ ¬ buildTempDir userConfig `prefix_of` e.1) fs.
Proof.
  intros Hren Hglob.
  pose proof (rename_ok_exists _ _ _ _ Hren) as Hex.
  unfold productionBuild. rewrite Hren, Hglob. simpl.
  rewrite (rm_exists _ _ Hex). simpl.
  apply rename_ok in Hren as (_ & [(Heq & ->)|(Hne & _ & _ & ->)]).
  - rewrite Heq. apply list_filter_iff. intros e. tauto.
  - by apply filter_moved.
Qed.

(** What the proofs below assume of [vite.mergeConfig], as in the merge
    of the renderers' configurations. *)
Hypothesis merge_empty : ∀ c : Config, mergeConfig c ∅ = c.
Hypothesis merge_arrays : ∀ (key : string) (a b : Config) xs ys,
  a !! key = Some (Arr xs) → b !! key = Some (Arr ys) →
  mergeConfig a b !! key = Some (Arr (xs ++ ys)).
Hypothesis merge_keeps : ∀ (key : string) (a b : Config),
  b !! key = None → mergeConfig a b !! key = a !! key.


End HostProofs.

Lemma productionBuild_removes_temp_witness :
  pathExists
    (productionBuild viteMergeConfig bundlerWrites htmlFiles exampleUserConfig
       exampleDir siteWithPage).2 ["site"; ".tmp"] = false
  ∧ pathExists
      (productionBuild viteMergeConfig bundlerFails htmlFiles exampleUserConfig
         exampleDir siteWithPage).2 ["site"; ".tmp"] = false
  ∧ pathExists
      (productionBuild viteMergeConfig bundlerWrites htmlFiles exampleUserConfig
         exampleDir siteWithoutPages).2 ["site"; ".tmp"] = false.
Proof.
  split; [|split].
  - refine (productionBuild_removes_temp viteMergeConfig bundlerWrites htmlFiles
              exampleUserConfig exampleDir siteWithPage _ _).
    vm_compute. reflexivity.
  - refine (productionBuild_removes_temp viteMergeConfig bundlerFails htmlFiles
              exampleUserConfig exampleDir siteWithPage _ _).
    vm_compute. reflexivity.
  - refine (productionBuild_removes_temp viteMergeConfig bundlerWrites htmlFiles
              exampleUserConfig exampleDir siteWithoutPages _ _).
    vm_compute. reflexivity.
Defined.

Lemma productionBuild_empty_output_witness :
  productionBuild viteMergeConfig bundlerWrites htmlFiles exampleUserConfig
    exampleDir siteWithoutPages
  = (Err (JsError "Output directory empty!"), [ (["site"], Directory) ]).
Proof.
  refine (proj1 (productionBuild_empty_output viteMergeConfig bundlerWrites
                   htmlFiles exampleUserConfig exampleDir siteWithoutPages
                   [ (["site"], Directory);
                     (["site"; ".tmp"], Directory);
                     (["site"; ".tmp"; "main.css"], File "body {}") ]
                   _ _)).
  - vm_compute. reflexivity.
  - vm_compute. reflexivity.
Defined.

Lemma productionBuild_rename_fails_witness :
  productionBuild viteMergeConfig bundlerWrites htmlFiles exampleUserConfig
    exampleDir [ (["site"], Directory); (["site"; ".tmp"], Directory) ]
  = (Err (SystemError "ENOENT"),
     [ (["site"], Directory); (["site"; ".tmp"], Directory) ]).
Proof.
  refine (productionBuild_rename_fails viteMergeConfig bundlerWrites htmlFiles
            exampleUserConfig exampleDir _
            [ (["site"], Directory); (["site"; ".tmp"], Directory) ] _ _).
  vm_compute. reflexivity.
Defined.

Lemma productionBuild_bundler_outcome_witness :
  productionBuild viteMergeConfig bundlerFails htmlFiles exampleUserConfig
    exampleDir siteWithPage
  = (Err (HostError "build failed"), [ (["site"], Directory) ]).
Proof.
  refine (productionBuild_bundler_outcome viteMergeConfig bundlerFails htmlFiles
            exampleUserConfig exampleDir siteWithPage
            [ (["site"], Directory);
              (["site"; ".tmp"], Directory);
              (["site"; ".tmp"; "index.html"], File "<html></html>") ]
            [ (["site"], Directory);
              (["site"; ".tmp"], Directory);
              (["site"; ".tmp"; "index.html"], File "<html></html>");
              (["site"; ".tmp"; "partial.js"], File "x") ]
            _ _ _ _ _).
  - vm_compute. reflexivity.
  - vm_compute. discriminate.
  - reflexivity.
  - vm_compute. reflexivity.
Defined.

Lemma productionBuild_scratch_vanished_witness :
  productionBuild viteMergeConfig bundlerCleans htmlFiles exampleUserConfig
    exampleDir siteWithPage
  = (Err (SystemError "ENOENT"), [ (["site"], Directory) ]).
Proof.
  refine (productionBuild_scratch_vanished viteMergeConfig bundlerCleans
            htmlFiles exampleUserConfig exampleDir siteWithPage
            [ (["site"], Directory);
              (["site"; ".tmp"], Directory);
              (["site"; ".tmp"; "index.html"], File "<html></html>") ]
            [ (["site"], Directory) ] (Ok ()) _ _ _ _).
  - vm_compute. reflexivity.
  - vm_compute. discriminate.
  - vm_compute. reflexivity.
  - vm_compute. reflexivity.
Defined.

Lemma productionBuild_empty_frame_witness :
  (productionBuild viteMergeConfig bundlerWrites htmlFiles exampleUserConfig
     exampleDir
     (siteWithoutPages ++ [ (["site"; "src"], Directory);
                            (["site"; "src"; "index.md"], File "# Hi") ])).2
  = [ (["site"], Directory);
      (["site"; "src"], Directory);
      (["site"; "src"; "index.md"], File "# Hi") ].
Proof.
  rewrite (productionBuild_empty_frame viteMergeConfig bundlerWrites htmlFiles
             exampleUserConfig exampleDir _
             [ (["site"], Directory);
               (["site"; ".tmp"], Directory);
               (["site"; ".tmp"; "main.css"], File "body {}");
               (["site"; "src"], Directory);
               (["site"; "src"; "index.md"], File "# Hi") ]).
  - vm_compute. reflexivity.
  - vm_compute. reflexivity.
  - vm_compute. reflexivity.
Defined.


End Build.
